(** * Card Morph widget (src/components/card-morph/dist/card-morph.js)

    A shallow embedding of the parts of the Card Morph widget that carry
    state: the singleton [Lightbox], the open/close view controller of a
    [CardMorph] instance, and the draggable gallery strip built by
    [#createDraggable].  Callbacks that the browser or the animation engine
    runs later (promise continuations, [setTimeout], [onComplete]) are kept
    as pending entries in the state and run by explicit event functions. *)

From Stdlib Require Import ZArith List String Bool Lia.
From Stdlib Require Import QArith Qminmax Qabs Lqa.
From Stdlib Require Import Relations.Relation_Operators.
From Stdlib Require Import Numbers.DecimalString.
Import ListNotations.

Open Scope Z_scope.

(* ================================================================== *)
(** ** Lightbox (static class, lines 157-560) *)
(* ================================================================== *)

Module Lightbox.

(** One entry of [Lightbox.#images]: [{src, alt, caption}]. *)
Record image := mkImage { img_src : string; img_alt : string }.

(** The continuation waiting on an animation promise:
    [#animateOpen().then(..)], [#animateClose().then(..)], or the
    [#animateTransition(direction, cb).then(..)] of [#goTo index]. *)
Inductive anim := AnimOpen | AnimClose | AnimGoTo (index : Z).

(** The static private fields of [Lightbox]; [lb_dialog] records whether
    [#dialog] has been built by [init()]. *)
Record state := mkState {
  lb_dialog : bool;
  lb_images : list image;
  lb_currentIndex : Z;
  lb_isOpen : bool;
  lb_isAnimating : bool;
  lb_inflight : option anim
}.

(** Field initialisers: [#images = []], [#currentIndex = 0], flags false. *)
Definition initial : state := mkState false [] 0 false false None.

(** [array.length] *)
Definition js_length (l : list image) : Z := Z.of_nat (List.length l).

(** [array[i]] for an integer index: [undefined] (here [None]) out of range. *)
Definition js_at (l : list image) (i : Z) : option image :=
  if i <? 0 then None else nth_error l (Z.to_nat i).

(** How a call ends: the early [return] of a guard, a normal return, or a
    [TypeError] escaping the call. *)
Inductive outcome := Rejected | Done | Threw.

(** [#loadImage(index)]: [const imageData = Lightbox.#images[index]] and later
    [newImg.src = imageData.src], which throws when [imageData] is
    [undefined]. *)
Definition loadImage (s : state) (index : Z) : outcome :=
  match js_at (lb_images s) index with
  | None => Threw
  | Some _ => Done
  end.

(** [static open(images, startIndex, triggerElement)] *)
Definition open_ (images : list image) (startIndex : Z) (s : state)
    : state * outcome :=
  if lb_isOpen s || lb_isAnimating s then (s, Rejected)
  else match images with
  | [] => (s, Rejected)
  | _ =>
      let s1 := mkState true images startIndex (lb_isOpen s) true
                        (lb_inflight s) in
      match loadImage s1 startIndex with
      | Threw => (s1, Threw)
      | _ => (mkState true images startIndex (lb_isOpen s) true
                      (Some AnimOpen), Done)
      end
  end.

(** [static close()] *)
Definition close (s : state) : state :=
  if negb (lb_isOpen s) || lb_isAnimating s then s
  else mkState (lb_dialog s) (lb_images s) (lb_currentIndex s) (lb_isOpen s)
               true (Some AnimClose).

(** [static #goTo(index, direction)] *)
Definition goTo (index : Z) (s : state) : state :=
  if lb_isAnimating s then s
  else if (index <? 0) || (index >=? js_length (lb_images s)) then s
  else mkState (lb_dialog s) (lb_images s) (lb_currentIndex s) (lb_isOpen s)
               true (Some (AnimGoTo index)).

(** [static prev()] *)
Definition prev (s : state) : state :=
  if lb_isAnimating s || (lb_currentIndex s =? 0) then s
  else goTo (lb_currentIndex s - 1) s.

(** [static next()] *)
Definition next (s : state) : state :=
  if lb_isAnimating s || (lb_currentIndex s =? js_length (lb_images s) - 1)
  then s
  else goTo (lb_currentIndex s + 1) s.

(** The pending animation completes and its continuation runs. *)
Definition resolve (s : state) : state :=
  match lb_inflight s with
  | None => s
  | Some AnimOpen =>
      mkState (lb_dialog s) (lb_images s) (lb_currentIndex s) true false None
  | Some AnimClose =>
      mkState (lb_dialog s) (lb_images s) (lb_currentIndex s) false false None
  | Some (AnimGoTo i) =>
      mkState (lb_dialog s) (lb_images s) i (lb_isOpen s) false None
  end.

(** Everything that can happen to the singleton. *)
Inductive step : state -> state -> Prop :=
  | StepOpen imgs start s : step s (fst (open_ imgs start s))
  | StepClose s : step s (close s)
  | StepPrev s : step s (prev s)
  | StepNext s : step s (next s)
  | StepResolve s : step s (resolve s).

Definition reachable (s : state) : Prop := clos_refl_trans_1n _ step initial s.

Definition in_range (s : state) (i : Z) : Prop :=
  0 <= i < js_length (lb_images s).

End Lightbox.

(* ================================================================== *)
(** ** CardMorph view controller (lines 1029-1298) *)
(* ================================================================== *)

Module View.

(** An element of the container: an identity and its [data-cm-view-id],
    [data-collection] and [data-cm-view-for] attributes ([None] when the
    attribute is absent).  Cards are such elements. *)
Record card := mkCard {
  card_key : nat;
  card_cmViewId : option string;
  card_collection : option string;
  card_cmViewFor : option string
}.

(** A view element, found either as [document.getElementById(`${viewId}-view`)]
    (by its id) or as the container element that
    [container.querySelector(`[data-cm-view-for="${viewId}"]`)] returns. *)
Inductive view := ViewById (elementId : string) | ViewFor (el : card).

(** Element identity on container elements. *)
Definition card_eq_dec (a b : card) : {a = b} + {a <> b}.
Proof.
  decide equality; first [apply Nat.eq_dec | decide equality; apply string_dec].
Defined.

Definition view_eqb (a b : view) : bool :=
  match a, b with
  | ViewById x, ViewById y => String.eqb x y
  | ViewFor x, ViewFor y => if card_eq_dec x y then true else false
  | _, _ => false
  end.

(** The page as the instance sees it. [cards] is [this.cards]; [elements]
    the elements of the container in document order, the ones
    [this.container.querySelector] scans; [docIds] the ids of the elements
    of the document, which [document.getElementById] compares with its
    argument.  [select] is the browser's selector engine, a primitive of the
    platform: [select sel] is [None] when the selector string [sel] does not
    parse ([querySelector] throws a [SyntaxError]), and otherwise tells which
    elements match [sel] (escapes decoded, selector lists included). *)
Record env := mkEnv {
  cards : list card;
  elements : list card;
  docIds : list string;
  reducedMotion : bool;
  hasLenis : bool;
  select : string -> option (card -> bool)
}.

(** Inline [style] of [document.body] and its [cm-no-scroll] class. *)
Record body_style := mkBody {
  overflow : string;
  position : string;
  top : string;
  width : string;
  noScroll : bool
}.

Definition body_released : body_style := mkBody EmptyString EmptyString EmptyString EmptyString false.

(** [`-${this.scrollPosition}px`] *)
Definition top_px (pos : Z) : string :=
  String.append "-"
    (String.append (NilZero.string_of_int (Z.to_int pos)) "px").

Definition body_locked (pos : Z) : body_style :=
  mkBody "hidden" "fixed" (top_px pos) "100%" true.

(** Callbacks registered with the host and run later: the [setTimeout] of
    [#closeInternal] and the [onComplete] of its exit tween, both keyed by
    the timeout id. *)
Inductive callback :=
  | SafetyTimeout (tid : nat) (v : view)
  | OnComplete (tid : nat) (v : view).

(** The instance fields and the parts of the page it writes. [scrollY] is
    [window.scrollY]; [historyStack] the URLs pushed (["#id"], or the empty string for
    [pathname + search]); [keyListeners] the keydown listeners registered on
    [document] by this controller; [boundEscape] is [#boundEscapeHandler]. *)
Record state := mkState {
  activeView : option view;
  activeCard : option card;
  scrollPosition : Z;
  scrollY : Z;
  body : body_style;
  lenisRunning : bool;
  activeViews : list view;
  historyStack : list string;
  keyListeners : list nat;
  boundEscape : option nat;
  pending : list callback;
  nextId : nat;
  warnings : list string
}.

(** Outcome of a public call: it returns, or an exception escapes it. *)
Inductive result := Ok (s : state) | Throws (error : string).

(** *** Field updates *)

Definition set_active (v : option view) (c : option card) (s : state) : state :=
  mkState v c (scrollPosition s) (scrollY s) (body s) (lenisRunning s)
    (activeViews s) (historyStack s) (keyListeners s) (boundEscape s)
    (pending s) (nextId s) (warnings s).

Definition set_scrollPosition (p : Z) (s : state) : state :=
  mkState (activeView s) (activeCard s) p (scrollY s) (body s) (lenisRunning s)
    (activeViews s) (historyStack s) (keyListeners s) (boundEscape s)
    (pending s) (nextId s) (warnings s).

Definition set_scrollY (y : Z) (s : state) : state :=
  mkState (activeView s) (activeCard s) (scrollPosition s) y (body s)
    (lenisRunning s) (activeViews s) (historyStack s) (keyListeners s)
    (boundEscape s) (pending s) (nextId s) (warnings s).

Definition set_body (b : body_style) (s : state) : state :=
  mkState (activeView s) (activeCard s) (scrollPosition s) (scrollY s) b
    (lenisRunning s) (activeViews s) (historyStack s) (keyListeners s)
    (boundEscape s) (pending s) (nextId s) (warnings s).

Definition set_lenis (r : bool) (s : state) : state :=
  mkState (activeView s) (activeCard s) (scrollPosition s) (scrollY s) (body s)
    r (activeViews s) (historyStack s) (keyListeners s) (boundEscape s)
    (pending s) (nextId s) (warnings s).

Definition set_activeViews (vs : list view) (s : state) : state :=
  mkState (activeView s) (activeCard s) (scrollPosition s) (scrollY s) (body s)
    (lenisRunning s) vs (historyStack s) (keyListeners s) (boundEscape s)
    (pending s) (nextId s) (warnings s).

Definition push_history (url : string) (s : state) : state :=
  mkState (activeView s) (activeCard s) (scrollPosition s) (scrollY s) (body s)
    (lenisRunning s) (activeViews s) (url :: historyStack s) (keyListeners s)
    (boundEscape s) (pending s) (nextId s) (warnings s).

Definition set_listeners (ls : list nat) (b : option nat) (s : state) : state :=
  mkState (activeView s) (activeCard s) (scrollPosition s) (scrollY s) (body s)
    (lenisRunning s) (activeViews s) (historyStack s) ls b
    (pending s) (nextId s) (warnings s).

Definition set_pending (p : list callback) (n : nat) (s : state) : state :=
  mkState (activeView s) (activeCard s) (scrollPosition s) (scrollY s) (body s)
    (lenisRunning s) (activeViews s) (historyStack s) (keyListeners s)
    (boundEscape s) p n (warnings s).

(** [console.warn(msg)] *)
Definition warn (msg : string) (s : state) : state :=
  mkState (activeView s) (activeCard s) (scrollPosition s) (scrollY s) (body s)
    (lenisRunning s) (activeViews s) (historyStack s) (keyListeners s)
    (boundEscape s) (pending s) (nextId s) (warnings s ++ [msg]).

(** [classList.add] / [classList.remove] of [cm-view--active]. *)
Definition class_add (v : view) (vs : list view) : list view :=
  if existsb (view_eqb v) vs then vs else vs ++ [v].

Definition class_remove (v : view) (vs : list view) : list view :=
  filter (fun w => negb (view_eqb v w)) vs.

(** *** Lookups *)

(** [a || b] on two attribute reads: an empty or absent [a] falls through. *)
Definition js_or (a b : option string) : option string :=
  match a with
  | Some x => if String.eqb x EmptyString then b else Some x
  | None => b
  end.

(** [`${x}`] of an attribute read. *)
Definition js_str (x : option string) : string :=
  match x with Some v => v | None => "undefined" end.

(** [const viewId = card.dataset.cmViewId || card.dataset.collection] *)
Definition card_view_id (c : card) : string :=
  js_str (js_or (card_cmViewId c) (card_collection c)).

(** The one-character string holding a double quote. *)
Definition dquote : string := String (Ascii.ascii_of_nat 34) EmptyString.

(** [`[${name}="${value}"]`]: the value is pasted in as it is. *)
Definition attr_selector (name value : string) : string :=
  String.append "["
    (String.append name
       (String.append "="
          (String.append dquote (String.append value (String.append dquote "]"))))).

(** [this.container.querySelector(sel)]: the first matching element in
    document order; [None] when the selector does not parse (the call
    throws). *)
Definition querySelector (e : env) (sel : string) : option (option card) :=
  match select e sel with
  | None => None
  | Some m => Some (find m (elements e))
  end.

(** [document.getElementById(`${viewId}-view`) ||
     this.container.querySelector(`[data-cm-view-for="${viewId}"]`)] *)
Definition lookup_view (e : env) (viewId : string) : option (option view) :=
  let elId := String.append viewId "-view" in
  if existsb (String.eqb elId) (docIds e) then Some (Some (ViewById elId))
  else
    match querySelector e (attr_selector "data-cm-view-for" viewId) with
    | None => None
    | Some found => Some (option_map ViewFor found)
    end.

(** [this.container.querySelector(`[data-cm-view-id="${id}"]`)] *)
Definition query_card (e : env) (id : string) : option (option card) :=
  querySelector e (attr_selector "data-cm-view-id" id).

(** [this.cards[n]] *)
Definition card_at (e : env) (n : Z) : option card :=
  if n <? 0 then None else nth_error (cards e) (Z.to_nat n).

(** The argument of [open(card)]: a number, a string, or an element. *)
Inductive card_ref :=
  | ByIndex (n : Z)
  | ById (id : string)
  | ByElement (c : option card).

(** *** Open *)

(** Steps 1-6 and the Escape listener of [#openView] once [view] is found. *)
Definition open_found (e : env) (c : card) (v : view) (viewId : string)
    (skipHistory : bool) (s : state) : state :=
  (* Save state *)
  let s := set_scrollPosition (scrollY s) s in
  let s := set_active (Some v) (Some c) s in
  (* Update URL hash (unless opening from popstate) *)
  let s := if skipHistory then s else push_history (String.append "#" viewId) s in
  (* this.#lenis?.stop() *)
  let s := if hasLenis e then set_lenis false s else s in
  (* Lock body scroll; a pinned body leaves nothing to scroll *)
  let s := set_body (body_locked (scrollPosition s)) s in
  let s := set_scrollY 0 s in
  (* Show view *)
  let s := set_activeViews (class_add v (activeViews s)) s in
  (* Add escape key listener *)
  let h := nextId s in
  let s := set_pending (pending s) (S h) s in
  set_listeners (h :: keyListeners s) (Some h) s.

(** [#openView(card, skipHistory)] *)
Definition openView (e : env) (c : card) (skipHistory : bool) (s : state)
    : result :=
  let viewId := card_view_id c in
  match lookup_view e viewId with
  | None => Throws "SyntaxError"
  | Some None => Ok (warn (String.append "CardMorph: View not found for " viewId) s)
  | Some (Some v) => Ok (open_found e c v viewId skipHistory s)
  end.

(** [open(card)] *)
Definition open_ (e : env) (r : card_ref) (s : state) : result :=
  match r with
  | ByIndex n =>
      match card_at e n with Some c => openView e c false s | None => Ok s end
  | ById id =>
      match query_card e id with
      | None => Throws "SyntaxError"
      | Some (Some c) => openView e c false s
      | Some None => Ok s
      end
  | ByElement (Some c) => openView e c false s
  | ByElement None => Ok s
  end.

(** *** Close *)

(** [#finalizeClose(view)] *)
Definition finalizeClose (e : env) (v : view) (s : state) : state :=
  let s := set_activeViews (class_remove v (activeViews s)) s in
  (* Remove escape handler *)
  let s := match boundEscape s with
           | Some h => set_listeners (remove Nat.eq_dec h (keyListeners s)) None s
           | None => s
           end in
  (* Restore body scroll *)
  let s := set_body body_released s in
  (* window.scrollTo(0, this.scrollPosition) *)
  let s := set_scrollY (scrollPosition s) s in
  (* this.#lenis?.start() *)
  let s := if hasLenis e then set_lenis true s else s in
  (* Reset state *)
  set_active None None s.

Definition is_timeout (tid : nat) (cb : callback) : bool :=
  match cb with SafetyTimeout t _ => Nat.eqb t tid | _ => false end.

Definition is_oncomplete (tid : nat) (cb : callback) : bool :=
  match cb with OnComplete t _ => Nat.eqb t tid | _ => false end.

(** [clearTimeout(tid)] *)
Definition clearTimeout (tid : nat) (s : state) : state :=
  set_pending (filter (fun cb => negb (is_timeout tid cb)) (pending s)) (nextId s) s.

(** [#closeInternal(skipHistory)] *)
Definition closeInternal (e : env) (skipHistory : bool) (s : state) : state :=
  match activeView s with
  | None => s
  | Some v =>
      let s := if skipHistory then s else push_history EmptyString s in
      let tid := nextId s in
      let s := set_pending (SafetyTimeout tid v :: pending s) (S tid) s in
      if reducedMotion e then finalizeClose e v (clearTimeout tid s)
      else set_pending (OnComplete tid v :: pending s) (nextId s) s
  end.

(** [close()] *)
Definition close (e : env) (s : state) : state := closeInternal e false s.

(** The safety timeout [tid] fires:
    [if (this.activeView) this.#finalizeClose(view)]. *)
Definition fire_timeout (e : env) (tid : nat) (s : state) : state :=
  match find (is_timeout tid) (pending s) with
  | Some (SafetyTimeout _ v) =>
      let s := clearTimeout tid s in
      match activeView s with
      | Some _ => finalizeClose e v s
      | None => s
      end
  | _ => s
  end.

(** The exit tween completes: [cleanupAndFinalize()]. *)
Definition complete_exit (e : env) (tid : nat) (s : state) : state :=
  match find (is_oncomplete tid) (pending s) with
  | Some (OnComplete _ v) =>
      let s := set_pending (filter (fun cb => negb (is_oncomplete tid cb)) (pending s))
                           (nextId s) s in
      finalizeClose e v (clearTimeout tid s)
  | _ => s
  end.

(** A completed [close()]: under reduced motion the cleanup runs at once;
    otherwise either the exit tween's [onComplete] or the safety timeout
    (the ids both carry are the [nextId] at the call) finalises. *)
Inductive close_run (e : env) (s : state) : state -> Prop :=
  | CloseReduced :
      reducedMotion e = true -> close_run e s (close e s)
  | CloseTween :
      reducedMotion e = false ->
      close_run e s (complete_exit e (nextId s) (close e s))
  | CloseTimeout :
      reducedMotion e = false ->
      close_run e s (fire_timeout e (nextId s) (close e s)).

(** Scroll lock and smooth-scroll suspension released, no active view. *)
Definition released (e : env) (s : state) : Prop :=
  activeView s = None /\ activeCard s = None /\ body s = body_released /\
  (hasLenis e = true -> lenisRunning s = true) /\ boundEscape s = None.

(** *** A sample page *)

(** [el.getAttribute(name)] for the attributes of [card]. *)
Definition attr (name : string) (el : card) : option string :=
  if String.eqb name "data-cm-view-id" then card_cmViewId el
  else if String.eqb name "data-collection" then card_collection el
  else if String.eqb name "data-cm-view-for" then card_cmViewFor el
  else None.

(** A value CSS reads as it is written inside a double-quoted string: no
    NUL, line feed, form feed, carriage return, double quote or backslash. *)
Fixpoint plain_value (v : string) : bool :=
  match v with
  | EmptyString => true
  | String ch rest =>
      negb (existsb (Nat.eqb (Ascii.nat_of_ascii ch)) [0; 10; 12; 13; 34; 92]%nat)
      && plain_value rest
  end.

(** The selector engine of the sample page.  It knows the selectors
    [attr_selector name value] with a plain [value], the only ones the
    sample page is queried with, and matches them as CSS does: the elements
    whose attribute [name] equals [value].  It refuses every other
    selector. *)
Definition plain_select (sel : string) : option (card -> bool) :=
  let try_name (name : string) :=
    let value := substring (String.length (attr_selector name EmptyString) - 2)%nat
                   (String.length sel - String.length (attr_selector name EmptyString))%nat
                   sel in
    if String.eqb sel (attr_selector name value) && plain_value value
    then Some (fun el => match attr name el with
                         | Some a => String.eqb a value
                         | None => false
                         end)
    else None in
  match try_name "data-cm-view-id"%string with
  | Some m => Some m
  | None => try_name "data-cm-view-for"%string
  end.

(** Two cards [a] and [b], each with its [*-view] element, no Lenis issue,
    full motion. *)
Definition card_a : card := mkCard 1 (Some "a"%string) None None.
Definition card_b : card := mkCard 2 (Some "b"%string) None None.

Definition two_cards : env :=
  mkEnv [card_a; card_b] [card_a; card_b] ["a-view"%string; "b-view"%string] false true
        plain_select.

(** A fresh instance on a page scrolled to [y]. *)
Definition page_at (y : Z) : state :=
  mkState None None 0 y body_released true [] [] [] None [] 0 [].

End View.

(* ================================================================== *)
(** ** Gallery strip of [#createDraggable] (lines 1469-1597) *)
(* ================================================================== *)

Module Gallery.

Local Open Scope Q_scope.

(** [a < b] on numbers. *)
Definition Qlt_bool (a b : Q) : bool := negb (Qle_bool b a).

(** The two rendered sizes [updateBounds] reads:
    [gallerySection.offsetWidth] and [gallery.scrollWidth]. *)
Record layout := mkLayout { containerWidth : Q; galleryWidth : Q }.

Record bounds := mkBounds { minX : Q; maxX : Q }.

(** [updateBounds()] *)
Definition updateBounds (l : layout) : bounds :=
  let maxDrag := Qmax 0 (galleryWidth l - containerWidth l + 40) in
  mkBounds (- maxDrag) 0.

(** [Math.max(bounds.minX, Math.min(bounds.maxX, v))] *)
Definition clamp (b : bounds) (v : Q) : Q := Qmax (minX b) (Qmin (maxX b) v).

(** [updateArrowStates()]: [None] when [#galleryNavContainer] is absent (early
    return); otherwise the [cm-gallery-nav__arrow--hidden] flags given to
    [classList.toggle] for the previous and the next arrow. *)
Definition updateArrowStates (hasNav : bool) (l : layout) (currentX : Q)
    : option (bool * bool) :=
  if hasNav then
    let b := updateBounds l in
    Some (Qle_bool 0 currentX, Qle_bool currentX (minX b))
  else None.

(** The drag state: the layout, [gsap.getProperty(gallery, 'x')], the bounds
    the Draggable was given ([None] before [Draggable.create]), the closure
    variables [lastX], [lastTime], [velocity], and whether the debounced
    resize timeout is pending. *)
Record gstate := mkG {
  glayout : layout;
  x : Q;
  draggableBounds : option bounds;
  lastX : Q;
  lastTime : Q;
  velocity : Q;
  resizePending : bool
}.

Definition initial (l : layout) : gstate := mkG l 0 None 0 0 0 false.

(** [Draggable.create(gallery, { bounds: updateBounds(), ... })], behind the
    [#activeDraggable] guard. *)
Definition createDraggable (s : gstate) : gstate :=
  match draggableBounds s with
  | Some _ => s
  | None => mkG (glayout s) (x s) (Some (updateBounds (glayout s))) 0 0 0
                (resizePending s)
  end.

(** The page re-lays out (images decode, content or viewport changes). *)
Definition set_layout (l : layout) (s : gstate) : gstate :=
  mkG l (x s) (draggableBounds s) (lastX s) (lastTime s) (velocity s)
      (resizePending s).

(** [onDragStart] at time [now]. *)
Definition dragStart (now : Q) (s : gstate) : gstate :=
  mkG (glayout s) (x s) (draggableBounds s) (x s) now 0 (resizePending s).

(** [onDrag] at time [now], after the Draggable moved the strip to [newX]. *)
Definition drag (newX now : Q) (s : gstate) : gstate :=
  let dt := now - lastTime s in
  let v := if Qlt_bool 0 dt then (newX - lastX s) / dt * 16
           else velocity s in
  mkG (glayout s) newX (draggableBounds s) newX now v (resizePending s).

(** A [gsap.to] call: target, duration and ease. *)
Record tween := mkTween { tw_x : Q; tw_duration : Q; tw_ease : string }.

(** [onDragEnd] *)
Definition onDragEnd (s : gstate) : option tween :=
  if Qlt_bool 1 (Qabs (velocity s)) then
    let b := updateBounds (glayout s) in
    let throwDistance := velocity s * 15 in
    let targetX := clamp b (x s + throwDistance) in
    Some (mkTween targetX (8 # 10) "power3.out"%string)
  else None.

(** The strip after the release has settled: the tween, if any, has run to
    its end. *)
Definition settle (s : gstate) : gstate :=
  match onDragEnd s with
  | Some t => mkG (glayout s) (tw_x t) (draggableBounds s) (lastX s)
                  (lastTime s) (velocity s) (resizePending s)
  | None => s
  end.

(** A [resize] event: [clearTimeout(resizeTimeout)] and a new 150 ms timeout. *)
Definition resize (s : gstate) : gstate :=
  mkG (glayout s) (x s) (draggableBounds s) (lastX s) (lastTime s)
      (velocity s) true.

(** The resize timeout fires:
    [this.#activeDraggable?.applyBounds(updateBounds())]. *)
Definition resizeTimeoutFires (s : gstate) : gstate :=
  if resizePending s then
    mkG (glayout s) (x s)
        (match draggableBounds s with
         | Some _ => Some (updateBounds (glayout s))
         | None => None
         end)
        (lastX s) (lastTime s) (velocity s) false
  else s.

(** [#galleryWheelHandler] on [(deltaX, deltaY)] with the strip at
    [currentX]: whether the event is captured ([preventDefault] and the
    propagation stops run) and the strip's [x] afterwards. *)
Definition wheel (l : layout) (currentX deltaX deltaY : Q) : bool * Q :=
  let isHorizontalScroll := Qlt_bool (Qabs deltaY) (Qabs deltaX) in
  if negb isHorizontalScroll || Qlt_bool (Qabs deltaX) 2 then (false, currentX)
  else
    let b := updateBounds l in
    let newX := clamp b (currentX - deltaX) in
    if Qlt_bool (1 # 10) (Qabs (newX - currentX)) then (true, newX)
    else (true, currentX).

(** A strip 300 px wide in a 100 px section, and the same strip once it has
    grown to 500 px. *)
Definition narrow : layout := mkLayout 100 300.
Definition grown : layout := mkLayout 100 500.

End Gallery.

(* ================================================================== *)
(** ** Lightbox page updates: [#loadImage] and [#preloadAdjacent] *)
(* ================================================================== *)

Module LightboxDom.
Import Lightbox.

(** What [#loadImage(index)] writes synchronously: the caption, the counter
    ([current.textContent = index + 1]) and the [disabled] flags of the two
    buttons.  The images come from [#initLightbox], which builds every entry
    with [caption = alt], so [imageData.caption || imageData.alt || ''] is
    the alt text.  [None] when [imageData] is [undefined] (the call throws). *)
Record dom_update := mkDom {
  caption : string;
  counter : Z;
  prevDisabled : bool;
  nextDisabled : bool
}.

Definition loadImage_dom (s : state) (index : Z) : option dom_update :=
  match js_at (lb_images s) index with
  | None => None
  | Some imageData =>
      Some (mkDom (img_alt imageData) (index + 1) (index =? 0)
                  (index =? js_length (lb_images s) - 1))
  end.

(** [#preloadAdjacent(index)]: the indices whose images get a [new Image()]. *)
Definition preloadAdjacent (s : state) (index : Z) : list Z :=
  filter (fun i => (0 <=? i) && (i <? js_length (lb_images s)))
         [index - 1; index + 1].

End LightboxDom.

(* ================================================================== *)
(** ** View controller: URL navigation (lines 1244-1257) *)
(* ================================================================== *)

Module ViewNav.
Import View.

(** [#handlePopState(e)], with [hash] the value of
    [window.location.hash.slice(1)]. *)
Definition handlePopState (e : env) (hash : string) (s : state) : result :=
  match hash, activeView s with
  | String _ _, None =>
      (* Hash present but no view open - open the view *)
      match query_card e hash with
      | None => Throws "SyntaxError"
      | Some (Some c) => openView e c true s
      | Some None => Ok s
      end
  | EmptyString, Some _ =>
      (* No hash but view open - close the view without pushing history *)
      Ok (closeInternal e true s)
  | _, _ => Ok s
  end.

End ViewNav.

(* ================================================================== *)
(** ** Gallery navigation: arrows and keys (lines 1553-1637) *)
(* ================================================================== *)

Module GalleryNav.
Import Gallery.
Local Open Scope Q_scope.

(** [#scrollGallery(gallery, direction, updateBounds, updateArrowStates,
    scrollStep)] with the strip at [currentX]: the tween it starts. *)
Definition scrollGallery (l : layout) (currentX direction scrollStep : Q)
    : tween :=
  let b := updateBounds l in
  let newX := currentX + direction * scrollStep in
  let newX := clamp b newX in
  mkTween newX (1 # 2) "power2.out"%string.

(** The arrow buttons: the previous arrow scrolls with direction [1], the
    next arrow with direction [-1]. *)
Definition prevClick (l : layout) (currentX scrollStep : Q) : tween :=
  scrollGallery l currentX 1 scrollStep.

Definition nextClick (l : layout) (currentX scrollStep : Q) : tween :=
  scrollGallery l currentX (-1) scrollStep.

(** [n] presses of the next arrow, each tween run to its end before the
    following press reads [gsap.getProperty(gallery, 'x')]. *)
Fixpoint nextPresses (l : layout) (scrollStep : Q) (n : nat) (x0 : Q) : Q :=
  match n with
  | O => x0
  | S n' => nextPresses l scrollStep n' (tw_x (nextClick l x0 scrollStep))
  end.

Fixpoint prevPresses (l : layout) (scrollStep : Q) (n : nat) (x0 : Q) : Q :=
  match n with
  | O => x0
  | S n' => prevPresses l scrollStep n' (tw_x (prevClick l x0 scrollStep))
  end.

End GalleryNav.

(* ================================================================== *)
(** ** Gallery readiness in [#initGallery] (lines 1309-1369) *)
(* ================================================================== *)

Module GalleryInit.

(** The closure variables of one [#initGallery] call ([loadedCount],
    [createScheduled]), the double [requestAnimationFrame] chains queued and
    run, the instance flags [#activeDraggable] (set or not) and
    [#draggableCreating], and the number of [Draggable.create] calls. *)
Record istate := mkI {
  loadedCount : nat;
  createScheduled : bool;
  framesQueued : nat;
  framesRun : nat;
  activeDraggable : bool;
  draggableCreating : bool;
  creates : nat
}.

(** [scheduleCreateDraggable()] *)
Definition scheduleCreateDraggable (s : istate) : istate :=
  if createScheduled s then s
  else mkI (loadedCount s) true (S (framesQueued s)) (framesRun s)
           (activeDraggable s) (draggableCreating s) (creates s).

(** [onImageReady()], for a gallery of [totalImages] images. *)
Definition onImageReady (totalImages : nat) (s : istate) : istate :=
  let s := mkI (S (loadedCount s)) (createScheduled s) (framesQueued s)
               (framesRun s) (activeDraggable s) (draggableCreating s)
               (creates s) in
  if (totalImages <=? loadedCount s)%nat then scheduleCreateDraggable s else s.

(** The guard of [#createDraggable(gallery)]; [hasDraggable] is whether the
    plugin is registered, [hasSection] whether [gallery.closest(...)] finds
    the gallery section. *)
Definition createDraggable (hasDraggable hasSection : bool) (s : istate)
    : istate :=
  if activeDraggable s || draggableCreating s then s
  else if hasDraggable && hasSection then
    mkI (loadedCount s) (createScheduled s) (framesQueued s) (framesRun s)
        true true (S (creates s))
  else
    mkI (loadedCount s) (createScheduled s) (framesQueued s) (framesRun s)
        (activeDraggable s) true (creates s).

(** What can happen after [#initGallery] returns: an image not yet complete
    fires [load] or [error], the 1 s fallback timeout fires, a queued
    double [requestAnimationFrame] reaches its inner callback, or the view
    closes and [#cleanupGallery()] kills the Draggable and clears
    [#draggableCreating]. *)
Inductive ievent := ImageReady | FallbackTimeout | Frames | Cleanup.

Definition handle (totalImages : nat) (hasDraggable hasSection : bool)
    (s : istate) (ev : ievent) : istate :=
  match ev with
  | ImageReady => onImageReady totalImages s
  | FallbackTimeout =>
      if negb (activeDraggable s) && negb (draggableCreating s)
      then scheduleCreateDraggable s else s
  | Frames =>
      match framesQueued s with
      | O => s
      | S k => createDraggable hasDraggable hasSection
                 (mkI (loadedCount s) (createScheduled s) k (S (framesRun s))
                      (activeDraggable s) (draggableCreating s) (creates s))
      end
  | Cleanup =>
      mkI (loadedCount s) (createScheduled s) (framesQueued s) (framesRun s)
          false false (creates s)
  end.

Definition run (totalImages : nat) (hasDraggable hasSection : bool)
    (evs : list ievent) (s : istate) : istate :=
  fold_left (handle totalImages hasDraggable hasSection) evs s.

(** [images.forEach(img => ...)]: [complete] lists
    [img.complete && img.naturalHeight !== 0] for each image; the ready ones
    call [onImageReady()] at once. *)
Definition startLoading (complete : list bool) (active creating : bool)
    : istate :=
  fold_left (fun s c => if c : bool then onImageReady (List.length complete) s else s)
    complete (mkI 0 false 0 0 active creating 0).

End GalleryInit.

(* ================================================================== *)
(** ** Options: [mergeDeep], [parseDataOptions] and the constructor's
       merge (lines 52-128, 866-868, 1730-1733) *)
(* ================================================================== *)

Module Options.

Local Set Warnings "-register-all".

(** JavaScript numbers. *)
Inductive number := Finite (q : Q) | NaN | PosInf | NegInf.

(** JavaScript values as options hold them; an object is the list of its
    own enumerable properties in enumeration order, with distinct keys. *)
Inductive jsval :=
  | JUndef
  | JNull
  | JBool (b : bool)
  | JNum (n : number)
  | JStr (s : string)
  | JArr (xs : list jsval)
  | JFun (name : string)
  | JObj (props : list (string * jsval)).

(** Array and string indices as property keys. *)
Definition index_key (i : nat) : string := NilZero.string_of_uint (Nat.to_uint i).

Fixpoint indexed {A} (i : nat) (xs : list A) : list (string * A) :=
  match xs with
  | [] => []
  | x :: r => (index_key i, x) :: indexed (S i) r
  end.

Fixpoint chars (s : string) : list jsval :=
  match s with
  | EmptyString => []
  | String c r => JStr (String c EmptyString) :: chars r
  end.

(** The own enumerable properties of a value: what [{ ...v }] copies and
    what [for (const key in v)] visits. *)
Definition own_props (v : jsval) : list (string * jsval) :=
  match v with
  | JObj ps => ps
  | JArr xs => indexed 0 xs
  | JStr s => indexed 0 (chars s)
  | _ => []
  end.

Fixpoint lookup (ps : list (string * jsval)) (k : string) : option jsval :=
  match ps with
  | [] => None
  | (k', v) :: r => if String.eqb k' k then Some v else lookup r k
  end.

(** [v[k]] on an own property.  Inherited properties (the methods of
    [Object.prototype], a function's [name]) are not modelled: for the keys
    options use, [v[k]] is an own property or [undefined]. *)
Definition js_get (v : jsval) (k : string) : jsval :=
  match lookup (own_props v) k with Some x => x | None => JUndef end.

(** [o[k] = v]: an existing key keeps its place, a new one goes last. *)
Fixpoint set_prop (ps : list (string * jsval)) (k : string) (v : jsval)
    : list (string * jsval) :=
  match ps with
  | [] => [(k, v)]
  | (k', v') :: r =>
      if String.eqb k' k then (k', v) :: r else (k', v') :: set_prop r k v
  end.

Definition truthy (v : jsval) : bool :=
  match v with
  | JUndef | JNull => false
  | JBool b => b
  | JNum (Finite q) => negb (Qeq_bool q 0)
  | JNum NaN => false
  | JNum _ => true
  | JStr s => negb (String.eqb s EmptyString)
  | _ => true
  end.

(** [a || b] *)
Definition js_or (a b : jsval) : jsval := if truthy a then a else b.

(** One iteration of the loop of [mergeDeep]: [source[key] !== undefined],
    then [source[key] && typeof source[key] === 'object' &&
    !Array.isArray(source[key]) && typeof source[key] !== 'function'], which
    holds exactly for objects; [merged] is the recursive merge. *)
Definition assign (output : list (string * jsval)) (key : string)
    (v merged : jsval) : list (string * jsval) :=
  match v with
  | JUndef => output
  | JObj _ => set_prop output key merged
  | _ => set_prop output key v
  end.

Fixpoint merge_props (merge : jsval -> jsval -> jsval) (target : jsval)
    (output ps : list (string * jsval)) : list (string * jsval) :=
  match ps with
  | [] => output
  | (key, v) :: rest =>
      merge_props merge target
        (assign output key v (merge (js_or (js_get target key) (JObj [])) v))
        rest
  end.

Fixpoint merge_elems (merge : jsval -> jsval -> jsval) (target : jsval)
    (output : list (string * jsval)) (i : nat) (xs : list jsval)
    : list (string * jsval) :=
  match xs with
  | [] => output
  | v :: rest =>
      merge_elems merge target
        (assign output (index_key i) v
           (merge (js_or (js_get target (index_key i)) (JObj [])) v))
        (S i) rest
  end.

(** [mergeDeep(target, source)] *)
Fixpoint mergeDeep (target source : jsval) {struct source} : jsval :=
  JObj (match source with
        | JObj ps => merge_props mergeDeep target (own_props target) ps
        | JArr xs => merge_elems mergeDeep target (own_props target) 0 xs
        | JStr s =>
            fold_left (fun out kv => set_prop out (fst kv) (snd kv))
              (indexed 0 (chars s)) (own_props target)
        | _ => own_props target
        end).

(** [setOptions(options)] *)
Definition setOptions (current options : jsval) : jsval :=
  mergeDeep current options.

(** [DEFAULTS] *)
Definition DEFAULTS : jsval :=
  JObj [("cardSelector", JStr ".cm-card");
        ("viewSelector", JStr ".cm-view");
        ("galleryTrackSelector", JStr ".cm-gallery-section__track");
        ("gallerySectionSelector", JStr ".cm-gallery-section");
        ("duration", JNum (Finite (6 # 10)));
        ("ease", JStr "power2.inOut");
        ("draggable", JBool true);
        ("keyboard", JBool true);
        ("smoothScroll", JBool true);
        ("cardStacking", JBool true);
        ("scrollStep", JNum (Finite 400));
        ("lightbox", JBool true);
        ("lenis", JObj [("duration", JNum (Finite (12 # 10)));
                        ("easing", JFun "easing");
                        ("smoothWheel", JBool true)]);
        ("onOpen", JNull);
        ("onClose", JNull);
        ("onInit", JNull);
        ("onDestroy", JNull)]%string.

(** [String.prototype.toLowerCase] on an ASCII character. *)
Definition lower (c : Ascii.ascii) : Ascii.ascii :=
  let n := Ascii.nat_of_ascii c in
  if (65 <=? n)%nat && (n <=? 90)%nat then Ascii.ascii_of_nat (n + 32) else c.

(** [optionKey.charAt(0).toLowerCase() + optionKey.slice(1)] *)
Definition normalize (optionKey : string) : string :=
  match optionKey with
  | EmptyString => EmptyString
  | String c r => String (lower c) r
  end.

Section Parse.

(** [isNaN(value)] and [parseFloat(value)] on a string. *)
Variable isNaN : string -> bool.
Variable parseFloat : string -> number.

(** The value conversion of [parseDataOptions]. *)
Definition parse_value (value : string) : jsval :=
  if String.eqb value "true" then JBool true
  else if String.eqb value "false" then JBool false
  else if negb (isNaN value) && negb (String.eqb value EmptyString)
  then JNum (parseFloat value)
  else JStr value.

(** [key.startsWith(prefix) && key.length > prefix.length], and the
    normalised option key. *)
Definition option_key (key : string) : option string :=
  if String.prefix "cm" key && (2 <? String.length key)%nat
  then Some (normalize (substring 2 (String.length key - 2) key))
  else None.

Fixpoint parse_entries (options : list (string * jsval))
    (dataset : list (string * string)) : list (string * jsval) :=
  match dataset with
  | [] => options
  | (key, value) :: rest =>
      let options := match option_key key with
                     | Some normalizedKey =>
                         set_prop options normalizedKey (parse_value value)
                     | None => options
                     end in
      parse_entries options rest
  end.

(** [parseDataOptions(element)], the dataset given as its (key, value)
    pairs in enumeration order. *)
Definition parseDataOptions (dataset : list (string * string)) : jsval :=
  JObj (parse_entries [] dataset).

(** [mergeDeep(mergeDeep(DEFAULTS, options), dataOptions)] in the
    constructor. *)
Definition constructor_options (options : jsval)
    (dataset : list (string * string)) : jsval :=
  mergeDeep (mergeDeep DEFAULTS options) (parseDataOptions dataset).

(** The options a container gets from [initAll(selector, options)]: the
    data options are merged once in [initAll] and again in the
    constructor. *)
Definition initAll_options (options : jsval)
    (dataset : list (string * string)) : jsval :=
  constructor_options (mergeDeep options (parseDataOptions dataset)) dataset.

End Parse.

End Options.


(* ================================================================== *)
(** ** Instance registry: [initAll] (lines 626, 698-723, 852-862, 937) *)
(* ================================================================== *)

Module Registry.

(** What [new CardMorph(container, options)] does with a container that is
    not registered yet: it returns normally, or an exception escapes it
    before [#init] registers the instance (a missing GSAP, a failing query),
    or after ([onInit] throwing). *)
Inductive ctor_outcome := CtorOk | CtorThrowsBefore | CtorThrowsAfter.

(** [CardMorph.#instances] is the list of registered containers. *)
Definition registered (reg : list nat) (c : nat) : bool := existsb (Nat.eqb c) reg.

(** One iteration of [containers.forEach] in [initAll]: the instances
    returned so far and the registry. *)
Definition initAll_step (ctor : nat -> ctor_outcome)
    (acc : list nat * list nat) (container : nat) : list nat * list nat :=
  let (instances, reg) := acc in
  if registered reg container then (instances, reg)
  else match ctor container with
       | CtorOk => (instances ++ [container], reg ++ [container])
       | CtorThrowsBefore => (instances, reg)
       | CtorThrowsAfter => (instances, reg ++ [container])
       end.

(** [CardMorph.initAll(selector, options)] on the containers the selector
    matches: the returned instances and the registry afterwards.  [ctor]
    gives the outcome of the constructor for each container during this
    call; another call may see other outcomes (GSAP loaded in between,
    other [data-cm-*] attributes). *)
Definition initAll (ctor : nat -> ctor_outcome) (containers reg : list nat)
    : list nat * list nat :=
  fold_left (initAll_step ctor) containers ([], reg).

End Registry.

(* ================================================================== *)
(** ** View controller: proofs *)
(* ================================================================== *)

Module ViewFacts.
Import View.

Lemma finalizeClose_released e v t : released e (finalizeClose e v t).
Proof.
  unfold released, finalizeClose; simpl.
  destruct (boundEscape t) eqn:B; destruct (hasLenis e); simpl; repeat split; auto;
    try (intros; discriminate).
Qed.

Lemma finalizeClose_scrollY e v t :
  scrollY (finalizeClose e v t) = scrollPosition t.
Proof.
  unfold finalizeClose; simpl. destruct (boundEscape t); destruct (hasLenis e); reflexivity.
Qed.

(** Whichever path completes it, a [close()] of an open view is
    [#finalizeClose] of that view, run on a state with the same saved
    scroll position. *)
Lemma close_run_finalizes e s s' v :
  activeView s = Some v -> close_run e s s' ->
  exists t, s' = finalizeClose e v t /\ scrollPosition t = scrollPosition s.
Proof.
  intros Ha Hr. destruct Hr as [Hm|Hm|Hm];
    unfold complete_exit, fire_timeout, close, closeInternal; rewrite Ha, Hm;
    cbn [find is_timeout is_oncomplete pending set_pending push_history nextId];
    try rewrite Nat.eqb_refl.
  - eexists; split; [reflexivity|]. reflexivity.
  - eexists; split; [reflexivity|]. reflexivity.
  - cbn. rewrite Ha. eexists; split; [reflexivity|]. reflexivity.
Qed.

(** C1 (failing input): on the two-card page, [open("a")] then [open("b")]
    while "a" is open is not a no-op: both views carry [cm-view--active],
    [activeView] is overwritten, the saved scroll position is overwritten by
    the pinned body's [scrollY] of 0, and the first Escape listener stays
    registered.  A completed [close()] then leaves view "a" active and
    restores the page to 0 instead of 500. *)
Theorem second_open_leaves_two_views_active :
  match open_ two_cards (ById "a") (page_at 500) with
  | Ok s1 =>
      activeView s1 = Some (ViewById "a-view") /\
      match open_ two_cards (ById "b") s1 with
      | Ok s2 =>
          activeViews s2 = [ViewById "a-view"; ViewById "b-view"] /\
          activeView s2 = Some (ViewById "b-view") /\
          scrollPosition s2 = 0 /\
          keyListeners s2 = [1%nat; 0%nat] /\ boundEscape s2 = Some 1%nat /\
          (let s3 := complete_exit two_cards (nextId s2) (close two_cards s2) in
           activeViews s3 = [ViewById "a-view"] /\ scrollY s3 = 0 /\
           keyListeners s3 = [0%nat])
      | Throws _ => False
      end
  | Throws _ => False
  end.
Proof. vm_compute. repeat split. Qed.

(** C2: [close()] on an instance with an active view always reaches the
    released state (no active view or card, body styles cleared, Lenis
    started, Escape handler dropped).  Without reduced motion the safety
    timeout is armed, and firing it, with no [onComplete] ever arriving,
    releases everything, as does the tween's completion. *)
Theorem close_always_releases (e : env) (s : state) (v : view) :
  activeView s = Some v ->
  (reducedMotion e = true -> released e (close e s)) /\
  (reducedMotion e = false ->
     In (SafetyTimeout (nextId s) v) (pending (close e s)) /\
     released e (fire_timeout e (nextId s) (close e s)) /\
     released e (complete_exit e (nextId s) (close e s))).
Proof.
  intros Ha. split.
  - intros Hm. destruct (close_run_finalizes e s _ v Ha (CloseReduced e s Hm))
      as (t & -> & _). apply finalizeClose_released.
  - intros Hm. split.
    + unfold close, closeInternal. rewrite Ha, Hm. simpl. auto.
    + split.
      * destruct (close_run_finalizes e s _ v Ha (CloseTimeout e s Hm))
          as (t & E & _). rewrite E. apply finalizeClose_released.
      * destruct (close_run_finalizes e s _ v Ha (CloseTween e s Hm))
          as (t & E & _). rewrite E. apply finalizeClose_released.
Qed.

Lemma close_always_releases_witness :
  let s := open_found two_cards card_a (ViewById "a-view") "a" false (page_at 500) in
  released two_cards (fire_timeout two_cards (nextId s) (close two_cards s)).
Proof.
  cbv zeta.
  destruct (close_always_releases two_cards
              (open_found two_cards card_a (ViewById "a-view") "a" false (page_at 500))
              (ViewById "a-view") eq_refl) as [_ H].
  exact (proj1 (proj2 (H eq_refl))).
Defined.


(** C3 (counterexample): [open("c")] on the two-card page, where no element
    matches [[data-cm-view-id="c"]], returns with the state untouched and
    nothing logged: no diagnostic is written. *)
Lemma open_unknown_id_logs_nothing :
  open_ two_cards (ById "c") (page_at 500) = Ok (page_at 500) /\
  warnings (page_at 500) = [].
Proof. split; reflexivity. Qed.

(** C3 (amended): when no element of the container matches the selector
    [[data-cm-view-id="<id>"]], [open(id)] returns the state as it was and
    logs nothing; when the first match is an element whose view is missing,
    the only change is the warning "CardMorph: View not found for <viewId>".
    No view becomes active, no history entry is pushed, no scroll lock is
    applied. *)
Theorem open_unresolved_id_changes_nothing (e : env) (id : string) (s : state) :
  (query_card e id = Some None -> open_ e (ById id) s = Ok s) /\
  (forall c, query_card e id = Some (Some c) ->
     lookup_view e (card_view_id c) = Some None ->
     open_ e (ById id) s =
       Ok (warn (String.append "CardMorph: View not found for " (card_view_id c)) s)).
Proof.
  unfold open_. split.
  - intros H. rewrite H. reflexivity.
  - intros c H Hv. rewrite H. unfold openView. rewrite Hv. reflexivity.
Qed.

Lemma open_unresolved_id_changes_nothing_witness :
  open_ two_cards (ById "c") (page_at 500) = Ok (page_at 500).
Proof.
  exact (proj1 (open_unresolved_id_changes_nothing two_cards "c" (page_at 500))
           eq_refl).
Defined.


(** C4: after an [open(id)] that finds its card and view, the body is pinned
    at [-scrollY px] and the recorded position is the page's [scrollY]; after
    any completed [close()] the body styles are all cleared and the page is
    back at that recorded position. *)
Theorem open_close_round_trip (e : env) (id : string) (s : state) (c : card)
    (v : view) :
  query_card e id = Some (Some c) ->
  lookup_view e (card_view_id c) = Some (Some v) ->
  exists s1, open_ e (ById id) s = Ok s1 /\
    scrollPosition s1 = scrollY s /\ body s1 = body_locked (scrollY s) /\
    activeView s1 = Some v /\
    forall s2, close_run e s1 s2 ->
      body s2 = body_released /\ scrollY s2 = scrollY s.
Proof.
  intros Hc Hv. unfold open_. rewrite Hc. unfold openView. rewrite Hv.
  eexists; split; [reflexivity|].
  assert (Hsp : scrollPosition (open_found e c v (card_view_id c) false s) = scrollY s).
  { unfold open_found. destruct (hasLenis e); reflexivity. }
  assert (Hav : activeView (open_found e c v (card_view_id c) false s) = Some v).
  { unfold open_found. destruct (hasLenis e); reflexivity. }
  split; [exact Hsp|]. split.
  { unfold open_found. destruct (hasLenis e); reflexivity. }
  split; [exact Hav|].
  intros s2 Hr.
  destruct (close_run_finalizes e _ s2 v Hav Hr) as (t & -> & Ht).
  split.
  - apply finalizeClose_released.
  - rewrite finalizeClose_scrollY, Ht. exact Hsp.
Qed.

Lemma open_close_round_trip_witness :
  exists s1, open_ two_cards (ById "a") (page_at 500) = Ok s1 /\
    scrollPosition s1 = 500%Z /\
    body (fire_timeout two_cards (nextId s1) (close two_cards s1)) = body_released /\
    scrollY (fire_timeout two_cards (nextId s1) (close two_cards s1)) = 500%Z.
Proof.
  destruct (open_close_round_trip two_cards "a" (page_at 500) card_a
              (ViewById "a-view") eq_refl eq_refl) as (s1 & Ho & Hp & _ & _ & Hc).
  exists s1. split; [exact Ho|]. split; [exact Hp|].
  apply Hc. apply CloseTimeout. reflexivity.
Defined.


End ViewFacts.

(* ================================================================== *)
(** ** Lightbox: proofs *)
(* ================================================================== *)

Module LightboxFacts.
Import Lightbox.

(** The invariant of the singleton over every reachable state. *)
Definition inv (s : state) : Prop :=
  (lb_dialog s = false ->
     lb_images s = [] /\ lb_isOpen s = false /\ lb_inflight s = None) /\
  (lb_dialog s = true -> lb_images s <> []) /\
  (lb_isAnimating s = false ->
     lb_inflight s = None /\ (lb_dialog s = true -> in_range s (lb_currentIndex s))) /\
  (forall a, lb_inflight s = Some a ->
     lb_isAnimating s = true /\ in_range s (lb_currentIndex s) /\
     match a with AnimGoTo i => in_range s i | _ => True end).

Lemma js_at_some (l : list image) (i : Z) (x : image) :
  js_at l i = Some x -> 0 <= i < js_length l.
Proof.
  unfold js_at, js_length. destruct (Z.ltb_spec i 0); [discriminate|].
  intro E. assert (Hs : nth_error l (Z.to_nat i) <> None) by congruence.
  apply nth_error_Some in Hs. lia.
Qed.

Lemma js_at_none (l : list image) (i : Z) :
  js_at l i = None -> ~ (0 <= i < js_length l).
Proof.
  unfold js_at, js_length. destruct (Z.ltb_spec i 0); [lia|].
  intros E Hr. apply nth_error_None in E. lia.
Qed.

Lemma js_at_in_range (l : list image) (i : Z) :
  0 <= i < js_length l -> exists x, js_at l i = Some x.
Proof.
  unfold js_at, js_length. intros Hr.
  destruct (Z.ltb_spec i 0); [lia|].
  destruct (nth_error l (Z.to_nat i)) eqn:E; [eauto|].
  apply nth_error_None in E. lia.
Qed.

Lemma inv_initial : inv initial.
Proof.
  unfold inv; simpl; repeat split; try discriminate; intros; discriminate.
Qed.

Ltac simpl_state :=
  unfold inv, in_range in *; simpl in *.

Ltac finish_inv :=
  repeat split; intros;
  repeat match goal with H : Some _ = Some _ |- _ => injection H as H; subst end;
  try discriminate; try congruence; simpl; try lia; auto.

Lemma inv_open imgs start s : inv s -> inv (fst (open_ imgs start s)).
Proof.
  intros Hi. unfold open_.
  destruct (lb_isOpen s || lb_isAnimating s) eqn:G; [exact Hi|].
  apply orb_false_iff in G as [Go Ga].
  destruct imgs as [|im imgs']; [exact Hi|].
  destruct Hi as (H1 & H2 & H3 & H4).
  destruct (H3 Ga) as [Hn _].
  unfold loadImage; simpl.
  destruct (js_at (im :: imgs') start) eqn:E.
  - apply js_at_some in E.
    simpl_state. finish_inv.
  - simpl_state. rewrite Hn. finish_inv.
Qed.

Lemma inv_close s : inv s -> inv (close s).
Proof.
  intros Hi. unfold close.
  destruct (negb (lb_isOpen s) || lb_isAnimating s) eqn:G; [exact Hi|].
  apply orb_false_iff in G as [Go Ga]. apply negb_false_iff in Go.
  destruct Hi as (H1 & H2 & H3 & H4).
  destruct (lb_dialog s) eqn:D.
  2:{ destruct (H1 eq_refl) as (_ & Ho & _). congruence. }
  destruct (H3 Ga) as [_ Hr]. specialize (Hr eq_refl).
  simpl_state. try rewrite D in *; finish_inv.
Qed.

Lemma inv_goTo i s : inv s -> inv (goTo i s).
Proof.
  intros Hi. unfold goTo.
  destruct (lb_isAnimating s) eqn:Ga; [exact Hi|].
  destruct ((i <? 0) || (i >=? js_length (lb_images s))) eqn:G; [exact Hi|].
  apply orb_false_iff in G as [G1 G2].
  apply Z.ltb_ge in G1. rewrite Z.geb_leb in G2. apply Z.leb_gt in G2.
  destruct Hi as (H1 & H2 & H3 & H4).
  destruct (lb_dialog s) eqn:D.
  2:{ destruct (H1 eq_refl) as (Hl & _). unfold js_length in G2.
      rewrite Hl in G2. simpl in G2. lia. }
  destruct (H3 Ga) as [_ Hr]. specialize (Hr eq_refl).
  simpl_state. try rewrite D in *; finish_inv.
Qed.

Lemma inv_prev s : inv s -> inv (prev s).
Proof.
  intros Hi. unfold prev. destruct (_ || _); [exact Hi|]. now apply inv_goTo.
Qed.

Lemma inv_next s : inv s -> inv (next s).
Proof.
  intros Hi. unfold next. destruct (_ || _); [exact Hi|]. now apply inv_goTo.
Qed.

Lemma inv_resolve s : inv s -> inv (resolve s).
Proof.
  intros Hi. unfold resolve.
  destruct (lb_inflight s) as [a|] eqn:F; [|exact Hi].
  destruct Hi as (H1 & H2 & H3 & H4).
  destruct (H4 a F) as (Ha & Hr & Hg).
  assert (D : lb_dialog s = true).
  { destruct (lb_dialog s) eqn:D; auto.
    destruct (H1 eq_refl) as (_ & _ & Hn). congruence. }
  destruct a; simpl_state; try rewrite D in *; finish_inv.
Qed.

Lemma inv_step s s' : step s s' -> inv s -> inv s'.
Proof.
  destruct 1.
  - apply inv_open.
  - apply inv_close.
  - apply inv_prev.
  - apply inv_next.
  - apply inv_resolve.
Qed.

Lemma reachable_inv s : reachable s -> inv s.
Proof.
  unfold reachable. intros H.
  assert (G : forall x y, clos_refl_trans_1n _ step x y -> inv x -> inv y).
  { induction 1; auto. intros Hx. apply IHclos_refl_trans_1n.
    eapply inv_step; eauto. }
  apply (G _ _ H inv_initial).
Qed.

Lemma goTo_moves i s :
  lb_isAnimating s = false -> in_range s i ->
  lb_isAnimating (goTo i s) = true /\
  lb_currentIndex (resolve (goTo i s)) = i /\
  lb_isAnimating (resolve (goTo i s)) = false.
Proof.
  intros Ga Hr. unfold in_range in Hr. unfold goTo. rewrite Ga.
  destruct (Z.ltb_spec i 0); [lia|].
  destruct (Z.geb_spec i (js_length (lb_images s))); [lia|].
  simpl. auto.
Qed.

(** C9: [Lightbox.next()] at the last index and [Lightbox.prev()] at index 0
    are no-ops (the state is returned unchanged: no index change, no
    animation started, no wrap-around), as are both while an animation is in
    flight; otherwise each call starts a transition whose completion moves
    the index by exactly one.  [next]/[prev] are only reachable from the
    handlers [init()] installs, hence the [lb_dialog s = true] hypothesis.
    The last conjunct is the five-image scenario: open at 2, then next,
    next, prev (each run to completion) ends at index 3. *)
Theorem next_prev_step_by_one (s : state) :
  reachable s -> lb_dialog s = true ->
  (lb_currentIndex s = js_length (lb_images s) - 1 -> next s = s) /\
  (lb_currentIndex s = 0 -> prev s = s) /\
  (lb_isAnimating s = true -> next s = s /\ prev s = s) /\
  (lb_isAnimating s = false -> lb_currentIndex s <> js_length (lb_images s) - 1 ->
     lb_isAnimating (next s) = true /\
     lb_currentIndex (resolve (next s)) = lb_currentIndex s + 1) /\
  (lb_isAnimating s = false -> lb_currentIndex s <> 0 ->
     lb_isAnimating (prev s) = true /\
     lb_currentIndex (resolve (prev s)) = lb_currentIndex s - 1) /\
  lb_currentIndex
    (resolve (prev (resolve (next (resolve (next
      (resolve (fst (open_ (List.repeat (mkImage EmptyString EmptyString) 5)
                           2 initial))))))))) = 3.
Proof.
  intros Hreach Hd.
  destruct (reachable_inv s Hreach) as (_ & _ & H3 & _).
  unfold next, prev.
  split; [intros E; rewrite E, Z.eqb_refl, orb_true_r; reflexivity|].
  split; [intros E; rewrite E, Z.eqb_refl, orb_true_r; reflexivity|].
  split; [intros A; rewrite A; split; reflexivity|].
  split.
  { intros Ga Hne. destruct (H3 Ga) as [_ Hr]. specialize (Hr Hd).
    unfold in_range in Hr.
    rewrite Ga. destruct (Z.eqb_spec (lb_currentIndex s) (js_length (lb_images s) - 1));
      [contradiction|]. simpl.
    destruct (goTo_moves (lb_currentIndex s + 1) s Ga) as (A & B & _).
    { unfold in_range. lia. }
    split; assumption. }
  split.
  { intros Ga Hne. destruct (H3 Ga) as [_ Hr]. specialize (Hr Hd).
    unfold in_range in Hr.
    rewrite Ga. destruct (Z.eqb_spec (lb_currentIndex s) 0); [contradiction|]. simpl.
    destruct (goTo_moves (lb_currentIndex s - 1) s Ga) as (A & B & _).
    { unfold in_range. lia. }
    split; assumption. }
  reflexivity.
Qed.

Lemma next_prev_step_by_one_witness :
  let s := resolve (fst (open_ (List.repeat (mkImage EmptyString EmptyString) 5)
                               2 initial)) in
  reachable s /\ lb_dialog s = true /\ lb_currentIndex (resolve (next s)) = 3.
Proof.
  cbv zeta.
  assert (R : reachable (resolve (fst (open_ (List.repeat (mkImage EmptyString EmptyString) 5)
                                              2 initial)))).
  { unfold reachable.
    eapply rt1n_trans; [apply (StepOpen (List.repeat (mkImage EmptyString EmptyString) 5) 2)|].
    eapply rt1n_trans; [apply StepResolve|]. apply rt1n_refl. }
  split; [exact R|]. split; [reflexivity|].
  destruct (next_prev_step_by_one _ R eq_refl) as (_ & _ & _ & Hn & _).
  rewrite (proj2 (Hn eq_refl ltac:(vm_compute; discriminate))). reflexivity.
Defined.


(** C10: [Lightbox.open] only checks that the list is non-empty and that the
    lightbox is neither open nor animating.  For an index outside
    [[0, images.length)] the call is not rejected: it stores the index as
    [#currentIndex], reads [images[startIndex]] (which is [undefined]), and
    the [TypeError] of [#loadImage] escapes the call. *)
Theorem open_accepts_out_of_range_index (images : list image) (startIndex : Z)
    (s : state) :
  lb_isOpen s = false -> lb_isAnimating s = false -> images <> [] ->
  ~ (0 <= startIndex < js_length images) ->
  snd (open_ images startIndex s) <> Rejected /\
  snd (open_ images startIndex s) = Threw /\
  lb_currentIndex (fst (open_ images startIndex s)) = startIndex /\
  lb_images (fst (open_ images startIndex s)) = images /\
  js_at images startIndex = None.
Proof.
  intros Go Ga Hne Hout.
  assert (Hn : js_at images startIndex = None).
  { destruct (js_at images startIndex) eqn:E; [|reflexivity].
    apply js_at_some in E. contradiction. }
  unfold open_. rewrite Go, Ga. simpl.
  destruct images as [|im l]; [contradiction|].
  unfold loadImage. simpl. rewrite Hn. simpl.
  repeat split; auto; discriminate.
Qed.

Lemma open_accepts_out_of_range_index_witness :
  snd (open_ [mkImage "a.jpg" EmptyString] 5 initial) = Threw /\
  lb_currentIndex (fst (open_ [mkImage "a.jpg" EmptyString] 5 initial)) = 5.
Proof.
  destruct (open_accepts_out_of_range_index [mkImage "a.jpg" EmptyString] 5 initial
              eq_refl eq_refl ltac:(discriminate) ltac:(unfold js_length; simpl; lia))
    as (_ & T & I & _).
  split; assumption.
Defined.


End LightboxFacts.

(* ================================================================== *)
(** ** Gallery strip: proofs *)
(* ================================================================== *)

Module GalleryFacts.
Import Gallery.
Local Open Scope Q_scope.

Lemma Qlt_bool_iff (a b : Q) : Qlt_bool a b = true <-> a < b.
Proof.
  unfold Qlt_bool. rewrite negb_true_iff.
  destruct (Qle_bool b a) eqn:E.
  - apply Qle_bool_iff in E. split; [discriminate|]. intros H. lra.
  - split; [|reflexivity]. intros _. apply Qnot_le_lt.
    intros H. apply Qle_bool_iff in H. congruence.
Qed.

Lemma Qlt_bool_false (a b : Q) : Qlt_bool a b = false <-> b <= a.
Proof.
  unfold Qlt_bool. rewrite negb_false_iff. apply Qle_bool_iff.
Qed.

Lemma Qle_bool_false (a b : Q) : Qle_bool a b = false <-> b < a.
Proof.
  destruct (Qle_bool a b) eqn:E.
  - apply Qle_bool_iff in E. split; [discriminate|]. intros H. lra.
  - split; [|reflexivity]. intros _. apply Qnot_le_lt.
    intros H. apply Qle_bool_iff in H. congruence.
Qed.

Lemma updateBounds_ordered (l : layout) :
  minX (updateBounds l) <= maxX (updateBounds l) /\ maxX (updateBounds l) == 0.
Proof.
  simpl. assert (H : 0 <= Qmax 0 (galleryWidth l - containerWidth l + 40))
    by apply Q.le_max_l.
  split; [|reflexivity]. lra.
Qed.

Lemma clamp_within (b : bounds) (v : Q) :
  minX b <= maxX b -> minX b <= clamp b v <= maxX b.
Proof.
  intros H. unfold clamp. split.
  - apply Q.le_max_l.
  - apply Q.max_lub; [exact H|]. apply Q.le_min_l.
Qed.

(** C5 (counterexample): the Draggable is created while the strip is
    300 px wide in a 100 px section (bounds [-240, 0]); the strip then grows
    to 500 px and a drag starts.  The Draggable still holds the old lower
    bound: drag start does not recompute the bounds. *)
Lemma drag_start_keeps_stale_bounds :
  match draggableBounds (dragStart 0 (set_layout grown (createDraggable (initial narrow)))) with
  | Some b => minX b == -240 /\ ~ (minX b == minX (updateBounds grown))
  | None => False
  end.
Proof. vm_compute. split; [reflexivity | discriminate]. Qed.

(** C5 (amended): the bounds are [minX = -(max(0, galleryWidth -
    containerWidth + 40))] and [maxX = 0].  The Draggable receives them when
    it is created and again when the debounced resize timeout fires; a
    resize event alone, a drag start and a drag move leave the Draggable's
    bounds as they were.  The release, wheel and arrow handlers clamp with
    the bounds of the current layout: the release ignores the bounds the
    Draggable holds, and each target lies in [[minX, 0]] for the layout at
    the time of the event. *)
Theorem bounds_formula_and_refresh (l : layout) (s : gstate) (now newX : Q) :
  minX (updateBounds l) = - Qmax 0 (galleryWidth l - containerWidth l + 40) /\
  maxX (updateBounds l) = 0 /\
  (draggableBounds s = None ->
     draggableBounds (createDraggable s) = Some (updateBounds (glayout s))) /\
  draggableBounds (resize s) = draggableBounds s /\
  (draggableBounds s <> None ->
     draggableBounds (resizeTimeoutFires (resize s)) = Some (updateBounds (glayout s))) /\
  draggableBounds (dragStart now s) = draggableBounds s /\
  draggableBounds (drag newX now s) = draggableBounds s /\
  (forall db, onDragEnd (mkG (glayout s) (x s) db (lastX s) (lastTime s)
                            (velocity s) (resizePending s)) = onDragEnd s) /\
  (forall t, onDragEnd s = Some t -> minX (updateBounds (glayout s)) <= tw_x t <= 0) /\
  (forall currentX deltaX deltaY,
     snd (wheel l currentX deltaX deltaY) == currentX \/
     minX (updateBounds l) <= snd (wheel l currentX deltaX deltaY) <= 0) /\
  (forall currentX direction scrollStep,
     minX (updateBounds l) <=
       tw_x (GalleryNav.scrollGallery l currentX direction scrollStep) <= 0).
Proof.
  split; [reflexivity|]. split; [reflexivity|]. split.
  { intros H. unfold createDraggable. rewrite H. reflexivity. }
  split; [reflexivity|]. split.
  { intros H. unfold resizeTimeoutFires, resize. simpl.
    destruct (draggableBounds s); [reflexivity|contradiction]. }
  split; [reflexivity|]. split; [reflexivity|]. split; [reflexivity|]. split.
  { intros t. unfold onDragEnd. destruct (Qlt_bool 1 (Qabs (velocity s)));
      [|discriminate].
    intros H. injection H as <-. apply clamp_within, updateBounds_ordered. }
  split.
  { intros currentX deltaX deltaY. unfold wheel.
    destruct (negb _ || _); [left; reflexivity|].
    destruct (Qlt_bool _ _); [right|left; reflexivity].
    apply clamp_within, updateBounds_ordered. }
  intros currentX direction scrollStep.
  apply clamp_within, updateBounds_ordered.
Qed.

Lemma bounds_formula_and_refresh_witness :
  draggableBounds (resizeTimeoutFires (resize (set_layout grown
    (createDraggable (initial narrow))))) = Some (updateBounds grown).
Proof.
  destruct (bounds_formula_and_refresh grown
              (set_layout grown (createDraggable (initial narrow))) 0 0)
    as (_ & _ & _ & _ & H & _).
  apply H. discriminate.
Defined.


(** C6 (counterexample): a slow release ([velocity = 0]) with the strip
    dragged to [x = 10], past [maxX = 0] under edge resistance: [onDragEnd]
    starts no tween, so the strip stays at 10, not at the clamped 0. *)
Lemma slow_release_sets_no_offset :
  let s := mkG narrow 10 (Some (updateBounds narrow)) 10 0 0 false in
  onDragEnd s = None /\ x (settle s) == 10 /\
  clamp (updateBounds narrow) 10 == 0.
Proof. vm_compute. repeat split; reflexivity. Qed.

(** C6 (amended): on release with [|velocity| > 1] the strip is tweened to
    [clamp(x + velocity * 15, minX, maxX)] (fresh bounds) over 0.8 s with
    ["power3.out"], so it settles inside the bounds; with [|velocity| <= 1]
    [onDragEnd] does nothing and the offset stays where the drag left it. *)
Theorem release_throws_or_leaves (s : gstate) :
  (1 < Qabs (velocity s) ->
     onDragEnd s = Some (mkTween (clamp (updateBounds (glayout s))
                                        (x s + velocity s * 15))
                                 (8 # 10) "power3.out"%string) /\
     minX (updateBounds (glayout s)) <= x (settle s) <= maxX (updateBounds (glayout s))) /\
  (Qabs (velocity s) <= 1 -> onDragEnd s = None /\ settle s = s).
Proof.
  split.
  - intros H. apply Qlt_bool_iff in H.
    assert (E : onDragEnd s = Some (mkTween (clamp (updateBounds (glayout s))
                                         (x s + velocity s * 15))
                                  (8 # 10) "power3.out"%string)).
    { unfold onDragEnd. rewrite H. reflexivity. }
    split; [exact E|]. unfold settle. rewrite E. cbn [x tw_x].
    apply clamp_within. apply updateBounds_ordered.
  - intros H. apply Qlt_bool_false in H.
    assert (E : onDragEnd s = None) by (unfold onDragEnd; rewrite H; reflexivity).
    split; [exact E|]. unfold settle. rewrite E. reflexivity.
Qed.

Lemma release_throws_or_leaves_witness :
  let s := mkG narrow (-100) (Some (updateBounds narrow)) (-100) 0 (-20) false in
  -240 <= x (settle s) <= 0.
Proof.
  cbv zeta.
  destruct (release_throws_or_leaves
              (mkG narrow (-100) (Some (updateBounds narrow)) (-100) 0 (-20) false))
    as [H _].
  destruct (H ltac:(vm_compute; reflexivity)) as [_ B].
  exact B.
Defined.


(** C7 (counterexample): the strip sits 0.05 px from [minX = -240] and a
    horizontal wheel step of [deltaX = 2] arrives.  The event is captured,
    but the clamped target [-240] is within 0.1 px of the current offset, so
    the offset is left at [-239.95] rather than set to the clamp. *)
Lemma small_wheel_step_at_edge_ignored :
  wheel narrow (-4799 # 20) 2 0 = (true, -4799 # 20) /\
  ~ (clamp (updateBounds narrow) (-4799 # 20 - 2) == -4799 # 20).
Proof. vm_compute. split; [reflexivity | discriminate]. Qed.

(** C7 (amended): a wheel event is captured (default prevented, propagation
    stopped) iff [|deltaX| > |deltaY|] and [|deltaX| >= 2]; an event that is
    not captured leaves the offset unchanged; a captured one sets the offset,
    without easing, to [clamp(x - deltaX, minX, maxX)] when that differs
    from [x] by more than 0.1 px, and otherwise leaves it unchanged. *)
Theorem wheel_capture_rule (l : layout) (currentX deltaX deltaY : Q) :
  let r := wheel l currentX deltaX deltaY in
  let newX := clamp (updateBounds l) (currentX - deltaX) in
  (fst r = true <-> Qabs deltaY < Qabs deltaX /\ 2 <= Qabs deltaX) /\
  (fst r = false -> snd r = currentX) /\
  (fst r = true -> 1 # 10 < Qabs (newX - currentX) -> snd r = newX) /\
  (fst r = true -> Qabs (newX - currentX) <= 1 # 10 -> snd r = currentX).
Proof.
  unfold wheel. cbv zeta.
  set (newX := clamp (updateBounds l) (currentX - deltaX)).
  set (d := Qabs (newX - currentX)).
  destruct (Qlt_bool (Qabs deltaY) (Qabs deltaX)) eqn:Hh;
  destruct (Qlt_bool (Qabs deltaX) 2) eqn:Hn;
    [| destruct (Qlt_bool (1 # 10) d) eqn:Ht | |]; cbn [negb orb fst snd].
  - split; [split; [discriminate|] | split; [reflexivity | split; discriminate]].
    intros [_ H]. apply Qlt_bool_iff in Hn. lra.
  - apply Qlt_bool_iff in Hh. apply Qlt_bool_false in Hn.
    apply Qlt_bool_iff in Ht.
    split; [split; auto|]. split; [discriminate|].
    split; [reflexivity|]. intros _ H. lra.
  - apply Qlt_bool_iff in Hh. apply Qlt_bool_false in Hn.
    apply Qlt_bool_false in Ht.
    split; [split; auto|]. split; [discriminate|].
    split; [|reflexivity]. intros _ H. lra.
  - split; [split; [discriminate|] | split; [reflexivity | split; discriminate]].
    intros [H _]. apply Qlt_bool_false in Hh. lra.
  - split; [split; [discriminate|] | split; [reflexivity | split; discriminate]].
    intros [H _]. apply Qlt_bool_false in Hh. lra.
Qed.

Lemma wheel_capture_rule_witness :
  snd (wheel narrow (-100) 30 5) = clamp (updateBounds narrow) (-100 - 30).
Proof.
  destruct (wheel_capture_rule narrow (-100) 30 5) as (_ & _ & H & _).
  apply H; vm_compute; reflexivity.
Defined.


(** C8: whenever the arrow states are updated (the navigation container
    exists), the "previous" arrow is hidden iff [x >= 0] and the "next"
    arrow iff [x <= minX]; so at [x = 0] the previous arrow is hidden, at
    [x = minX] the next one is, and strictly between them both show. *)
Theorem arrow_visibility_rule (l : layout) (currentX : Q) :
  exists prevHidden nextHidden,
    updateArrowStates true l currentX = Some (prevHidden, nextHidden) /\
    (prevHidden = true <-> 0 <= currentX) /\
    (nextHidden = true <-> currentX <= minX (updateBounds l)) /\
    (currentX == 0 -> prevHidden = true) /\
    (currentX == minX (updateBounds l) -> nextHidden = true) /\
    (minX (updateBounds l) < currentX < 0 ->
       prevHidden = false /\ nextHidden = false).
Proof.
  exists (Qle_bool 0 currentX), (Qle_bool currentX (minX (updateBounds l))).
  split; [reflexivity|].
  split; [apply Qle_bool_iff|]. split; [apply Qle_bool_iff|].
  split; [intros H; apply Qle_bool_iff; lra|].
  split; [intros H; apply Qle_bool_iff; lra|].
  intros [H1 H2]. split; apply Qle_bool_false; lra.
Qed.

Lemma arrow_visibility_rule_witness :
  updateArrowStates true narrow (-100) = Some (false, false).
Proof.
  destruct (arrow_visibility_rule narrow (-100)) as (p & n & E & _ & _ & _ & _ & I).
  rewrite E. destruct (I ltac:(vm_compute; split; reflexivity)) as [-> ->].
  reflexivity.
Defined.


End GalleryFacts.

(* ================================================================== *)
(** ** Lightbox: further properties *)
(* ================================================================== *)

Module LightboxMore.
Import Lightbox LightboxDom LightboxFacts.

(** In every reachable state where the lightbox has been built and no
    animation runs, the image list is non-empty and [#currentIndex] points
    into it. *)
Theorem idle_index_in_range (s : state) :
  reachable s -> lb_dialog s = true -> lb_isAnimating s = false ->
  lb_images s <> [] /\ 0 <= lb_currentIndex s < js_length (lb_images s).
Proof.
  intros R D A. destruct (reachable_inv s R) as (_ & H2 & H3 & _).
  split; [now apply H2|]. destruct (H3 A) as [_ H]. now apply H.
Qed.

Lemma idle_index_in_range_witness :
  let s := resolve (fst (open_ [mkImage "a.jpg" EmptyString; mkImage "b.jpg" EmptyString]
                              1 initial)) in
  0 <= lb_currentIndex s < 2.
Proof.
  cbv zeta.
  assert (R : reachable (resolve (fst (open_ [mkImage "a.jpg" EmptyString;
                                               mkImage "b.jpg" EmptyString] 1 initial)))).
  { unfold reachable.
    eapply rt1n_trans; [apply (StepOpen [mkImage "a.jpg" EmptyString;
                                          mkImage "b.jpg" EmptyString] 1)|].
    eapply rt1n_trans; [apply StepResolve|]. apply rt1n_refl. }
  exact (proj2 (idle_index_in_range _ R eq_refl eq_refl)).
Defined.

Lemma stuck_step (s s' : state) :
  lb_isAnimating s = true -> lb_inflight s = None -> step s s' -> s' = s.
Proof.
  intros A F St. destruct St.
  - unfold open_. rewrite A, orb_true_r. reflexivity.
  - unfold close. rewrite A, orb_true_r. reflexivity.
  - unfold prev. rewrite A. reflexivity.
  - unfold next. rewrite A. reflexivity.
  - unfold resolve. rewrite F. reflexivity.
Qed.

(** An [open()] whose first [#loadImage] throws leaves [#isAnimating] set
    with no animation pending to clear it; from then on every call ([open],
    [close], [prev], [next]) and every animation completion leaves the state
    exactly as it is: the lightbox can never be opened again. *)
Theorem thrown_open_locks_lightbox (imgs : list image) (start : Z) (s : state) :
  reachable s -> snd (open_ imgs start s) = Threw ->
  forall s', clos_refl_trans_1n _ step (fst (open_ imgs start s)) s' ->
  s' = fst (open_ imgs start s) /\ lb_isOpen s' = lb_isOpen s /\
  lb_isAnimating s' = true.
Proof.
  intros R T.
  assert (Stuck : lb_isAnimating (fst (open_ imgs start s)) = true /\
                  lb_inflight (fst (open_ imgs start s)) = None /\
                  lb_isOpen (fst (open_ imgs start s)) = lb_isOpen s).
  { destruct (reachable_inv s R) as (_ & _ & H3 & _).
    unfold open_ in *. destruct (lb_isOpen s || lb_isAnimating s) eqn:G;
      [discriminate|].
    apply orb_false_iff in G as [_ Ga].
    destruct imgs as [|im l]; [discriminate|]. unfold loadImage in *. simpl in *.
    destruct (js_at (im :: l) start); [discriminate|]. simpl.
    split; [reflexivity|]. split; [|reflexivity]. apply (H3 Ga). }
  destruct Stuck as (A & F & O).
  intros s' Hs'. induction Hs' as [|x y z Sxy Syz IH].
  - auto.
  - (* x is the stuck state: every step leaves it where it is *)
    assert (E : y = x) by (apply (stuck_step x y); auto).
    subst y. auto.
Qed.

Lemma thrown_open_locks_lightbox_witness :
  let s0 := fst (open_ [mkImage "a.jpg" EmptyString] 3 initial) in
  next (resolve (fst (open_ [mkImage "a.jpg" EmptyString] 0 s0))) = s0.
Proof.
  cbv zeta.
  assert (R : reachable initial) by apply rt1n_refl.
  refine (proj1 (thrown_open_locks_lightbox [mkImage "a.jpg" EmptyString] 3 initial
                   R eq_refl _ _)).
  eapply rt1n_trans; [apply (StepOpen [mkImage "a.jpg" EmptyString] 0)|].
  eapply rt1n_trans; [apply StepResolve|].
  eapply rt1n_trans; [apply StepNext|]. apply rt1n_refl.
Defined.

(** [#loadImage] and [#preloadAdjacent] agree: for an index inside the list
    the counter shows [index + 1], the "previous" button is disabled exactly
    when there is no image before to preload, the "next" button exactly when
    there is none after, and only neighbours inside the list are preloaded. *)
Theorem buttons_match_preloads (s : state) (i : Z) :
  0 <= i < js_length (lb_images s) ->
  exists d, loadImage_dom s i = Some d /\ counter d = i + 1 /\
    (prevDisabled d = true <-> ~ In (i - 1) (preloadAdjacent s i)) /\
    (nextDisabled d = true <-> ~ In (i + 1) (preloadAdjacent s i)) /\
    (forall j, In j (preloadAdjacent s i) ->
       0 <= j < js_length (lb_images s) /\ (j = i - 1 \/ j = i + 1)).
Proof.
  intros Hr. destruct (js_at_in_range _ _ Hr) as (im & E).
  unfold loadImage_dom. rewrite E. eexists; split; [reflexivity|].
  simpl. split; [reflexivity|].
  unfold preloadAdjacent. simpl.
  destruct (Z.leb_spec 0 (i - 1)); destruct (Z.ltb_spec (i - 1) (js_length (lb_images s)));
  destruct (Z.leb_spec 0 (i + 1)); destruct (Z.ltb_spec (i + 1) (js_length (lb_images s)));
  simpl; try lia;
  repeat split; intros;
  repeat match goal with
         | H : _ \/ _ |- _ => destruct H
         | H : False |- _ => contradiction
         end;
  try (rewrite Z.eqb_eq in *); try (apply Z.eqb_eq); try lia;
  try (intros [H'|H']; lia); try tauto;
  try (exfalso; match goal with H : ~ _ |- _ => apply H; simpl; auto end).
Qed.

Lemma buttons_match_preloads_witness :
  let s := mkState true [mkImage "a.jpg" "A"; mkImage "b.jpg" "B"] 0 true false None in
  preloadAdjacent s 0 = [1] /\ loadImage_dom s 0 = Some (mkDom "A" 1 true false).
Proof.
  cbv zeta. split; [reflexivity|].
  destruct (buttons_match_preloads
              (mkState true [mkImage "a.jpg" "A"; mkImage "b.jpg" "B"] 0 true false None)
              0 ltac:(unfold js_length; simpl; lia)) as (d & E & _).
  rewrite E. vm_compute in E. symmetry; exact E.
Defined.

(** Open, completed, then close, completed, brings the lightbox back to
    closed and idle with the index it was opened at, and a new [open()] is
    accepted. *)
Theorem open_close_cycle (imgs : list image) (start : Z) (s : state) :
  lb_isOpen s = false -> lb_isAnimating s = false ->
  0 <= start < js_length imgs ->
  let s1 := resolve (fst (open_ imgs start s)) in
  let s2 := resolve (close s1) in
  snd (open_ imgs start s) = Done /\
  lb_isOpen s1 = true /\ lb_isAnimating s1 = false /\
  lb_isOpen s2 = false /\ lb_isAnimating s2 = false /\
  lb_currentIndex s2 = start /\ lb_images s2 = imgs /\
  snd (open_ imgs start s2) = Done.
Proof.
  intros O A Hr. cbv zeta.
  destruct (js_at_in_range _ _ Hr) as (im & E).
  destruct imgs as [|i0 l]; [unfold js_length in Hr; simpl in Hr; lia|].
  unfold open_, loadImage. rewrite O, A. simpl. rewrite ?E.
  simpl. rewrite ?E. repeat split; reflexivity.
Qed.

Lemma open_close_cycle_witness :
  lb_currentIndex (resolve (close (resolve (fst (open_ [mkImage "a.jpg" EmptyString] 0 initial)))))
  = 0.
Proof.
  destruct (open_close_cycle [mkImage "a.jpg" EmptyString] 0 initial eq_refl eq_refl
              ltac:(unfold js_length; simpl; lia)) as (_ & _ & _ & _ & _ & I & _).
  exact I.
Defined.

End LightboxMore.

(* ================================================================== *)
(** ** URL navigation: proofs *)
(* ================================================================== *)

Module ViewNavFacts.
Import View ViewNav ViewFacts.

Lemma finalizeClose_history e v t :
  historyStack (finalizeClose e v t) = historyStack t.
Proof.
  unfold finalizeClose; simpl. destruct (boundEscape t); destruct (hasLenis e); reflexivity.
Qed.

Lemma complete_exit_history e tid t :
  historyStack (complete_exit e tid t) = historyStack t.
Proof.
  unfold complete_exit. destruct (find (is_oncomplete tid) (pending t)) as [[]|];
    try reflexivity. rewrite finalizeClose_history. reflexivity.
Qed.

Lemma fire_timeout_history e tid t :
  historyStack (fire_timeout e tid t) = historyStack t.
Proof.
  unfold fire_timeout. destruct (find (is_timeout tid) (pending t)) as [[]|];
    try reflexivity. simpl. destruct (activeView t); [|reflexivity].
  rewrite finalizeClose_history. reflexivity.
Qed.

Lemma closeInternal_skip_history e t :
  historyStack (closeInternal e true t) = historyStack t.
Proof.
  unfold closeInternal. destruct (activeView t); [|reflexivity].
  destruct (reducedMotion e); [|reflexivity].
  rewrite finalizeClose_history. reflexivity.
Qed.

Lemma view_eqb_refl v : view_eqb v v = true.
Proof.
  destruct v as [x|x]; simpl; [apply String.eqb_refl|].
  destruct (card_eq_dec x x); [reflexivity|contradiction].
Qed.

Lemma view_eqb_true v w : view_eqb v w = true -> v = w.
Proof.
  destruct v as [x|x], w as [y|y]; simpl; try discriminate.
  - intros E. apply String.eqb_eq in E. subst. reflexivity.
  - destruct (card_eq_dec x y); [intros _; subst; reflexivity|discriminate].
Qed.

Lemma class_remove_gone v vs : ~ In v (class_remove v vs).
Proof.
  unfold class_remove. rewrite filter_In. rewrite view_eqb_refl. simpl.
  intros [_ H]; discriminate.
Qed.

(** [popstate] never adds a history entry: neither the view it opens
    ([#openView(card, true)]) nor the close it starts
    ([#closeInternal(true)]), nor the completion of that close by the exit
    tween or by the safety timeout. *)
Theorem popstate_never_pushes_history (e : env) (hash : string) (s s' : state) :
  handlePopState e hash s = Ok s' ->
  historyStack s' = historyStack s /\
  (forall tid, historyStack (complete_exit e tid s') = historyStack s /\
               historyStack (fire_timeout e tid s') = historyStack s).
Proof.
  intros H.
  assert (E : historyStack s' = historyStack s).
  { unfold handlePopState in H.
    destruct hash as [|ch rest]; destruct (activeView s) eqn:A.
    - injection H as <-. apply closeInternal_skip_history.
    - injection H as <-. reflexivity.
    - injection H as <-. reflexivity.
    - destruct (query_card e (String ch rest)) as [[c|]|]; [|injection H as <-; reflexivity|discriminate].
      unfold openView in H. destruct (lookup_view e (card_view_id c)) as [[v|]|];
        [|injection H as <-; reflexivity|discriminate].
      injection H as <-. unfold open_found. destruct (hasLenis e); reflexivity. }
  split; [exact E|]. intros tid.
  rewrite complete_exit_history, fire_timeout_history. split; exact E.
Qed.

Lemma popstate_never_pushes_history_witness :
  exists s', handlePopState two_cards "a" (page_at 500) = Ok s' /\
             historyStack s' = [].
Proof.
  eexists. split; [reflexivity|].
  exact (proj1 (popstate_never_pushes_history two_cards "a" (page_at 500) _ eq_refl)).
Defined.

(** A [popstate] to a URL without a hash while a view is open closes it:
    the state reached once the close has completed (at once under reduced
    motion, otherwise by the exit tween or by the safety timeout) is
    released, the page is back at the saved scroll position, and no
    history entry was added on the way. *)
Theorem popstate_empty_hash_closes (e : env) (s : state) (v : view) :
  activeView s = Some v ->
  exists s1, handlePopState e EmptyString s = Ok s1 /\
    historyStack s1 = historyStack s /\
    (reducedMotion e = true ->
       released e s1 /\ scrollY s1 = scrollPosition s) /\
    (reducedMotion e = false ->
       released e (complete_exit e (nextId s) s1) /\
       scrollY (complete_exit e (nextId s) s1) = scrollPosition s /\
       released e (fire_timeout e (nextId s) s1) /\
       scrollY (fire_timeout e (nextId s) s1) = scrollPosition s).
Proof.
  intros A. unfold handlePopState. rewrite A.
  eexists; split; [reflexivity|]. split; [apply closeInternal_skip_history|].
  unfold closeInternal. rewrite A. split.
  - intros M. rewrite M. split; [apply finalizeClose_released|].
    rewrite finalizeClose_scrollY. reflexivity.
  - intros M. rewrite M.
    unfold complete_exit, fire_timeout.
    cbn [find is_timeout is_oncomplete pending set_pending nextId].
    rewrite Nat.eqb_refl. cbn [activeView clearTimeout set_pending]. rewrite A.
    repeat split; try apply finalizeClose_released;
      rewrite finalizeClose_scrollY; reflexivity.
Qed.

Lemma popstate_empty_hash_closes_witness :
  let s := open_found two_cards card_a (ViewById "a-view") "a" true (page_at 500) in
  exists s1, handlePopState two_cards EmptyString s = Ok s1 /\
    scrollY (complete_exit two_cards (nextId s) s1) = 500%Z.
Proof.
  cbv zeta.
  destruct (popstate_empty_hash_closes two_cards
              (open_found two_cards card_a (ViewById "a-view") "a" true (page_at 500))
              (ViewById "a-view") eq_refl) as (s1 & H & _ & _ & Hm).
  exists s1. split; [exact H|]. exact (proj1 (proj2 (Hm eq_refl))).
Defined.

(** A [popstate] whose hash selects a card through
    [[data-cm-view-id="<hash>"]] while no view is open opens that card's
    view as [open()] would, pinning the body at the current scroll
    position, but without pushing a history entry. *)
Theorem popstate_hash_opens_view (e : env) (hash : string) (s : state)
    (c : card) (v : view) :
  hash <> EmptyString -> activeView s = None ->
  query_card e hash = Some (Some c) ->
  lookup_view e (card_view_id c) = Some (Some v) ->
  exists s1, handlePopState e hash s = Ok s1 /\
    activeView s1 = Some v /\ activeCard s1 = Some c /\ In v (activeViews s1) /\
    scrollPosition s1 = scrollY s /\ body s1 = body_locked (scrollY s) /\
    historyStack s1 = historyStack s.
Proof.
  intros Hh A Q L. unfold handlePopState.
  destruct hash as [|ch rest]; [contradiction|]. rewrite A, Q.
  unfold openView. rewrite L. eexists; split; [reflexivity|].
  unfold open_found. destruct (hasLenis e); cbn;
    unfold class_add; destruct (existsb (view_eqb v) (activeViews s)) eqn:X;
    repeat split; try (apply in_or_app; right; left; reflexivity);
    apply existsb_exists in X as (w & Hw & Ew);
    apply view_eqb_true in Ew; subst; exact Hw.
Qed.

Lemma popstate_hash_opens_view_witness :
  exists s1, handlePopState two_cards "b" (page_at 300) = Ok s1 /\
    body s1 = body_locked 300.
Proof.
  destruct (popstate_hash_opens_view two_cards "b" (page_at 300) card_b
              (ViewById "b-view") ltac:(discriminate) eq_refl eq_refl eq_refl)
    as (s1 & H & _ & _ & _ & _ & B & _).
  exists s1. split; [exact H|exact B].
Defined.

Lemma finalizeClose_pending e v t : pending (finalizeClose e v t) = pending t.
Proof.
  unfold finalizeClose; simpl. destruct (boundEscape t); destruct (hasLenis e); reflexivity.
Qed.

(** The exit tween [tid] completing, when its [onComplete] is pending, is
    [#finalizeClose] of its view on a state with the same saved scroll
    position, from which the callbacks of [tid] are gone. *)
Lemma complete_exit_finalizes e tid v t pre rest :
  pending t = pre ++ OnComplete tid v :: rest ->
  forallb (fun cb => negb (is_oncomplete tid cb)) pre = true ->
  exists u, complete_exit e tid t = finalizeClose e v u /\
    scrollPosition u = scrollPosition t /\
    pending u = filter (fun cb => negb (is_timeout tid cb))
                  (filter (fun cb => negb (is_oncomplete tid cb)) (pending t)).
Proof.
  intros P F. unfold complete_exit. rewrite P.
  assert (E : find (is_oncomplete tid) (pre ++ OnComplete tid v :: rest) =
              Some (OnComplete tid v)).
  { clear P. induction pre as [|cb pre IH]; simpl.
    - rewrite Nat.eqb_refl. reflexivity.
    - simpl in F. apply andb_prop in F as [F1 F2].
      destruct (is_oncomplete tid cb); [discriminate|]. apply IH, F2. }
  rewrite E. eexists; split; [reflexivity|]. rewrite <- P. split; reflexivity.
Qed.

Lemma succ_neqb n : Nat.eqb (S n) n = false.
Proof. apply Nat.eqb_neq. lia. Qed.

(** A [close()] called again while the exit tween of the first one runs
    starts a second close: two history entries are pushed, and once both
    tweens have completed the instance is released with the page back at
    the saved scroll position. *)
Theorem double_close_pushes_twice (e : env) (s : state) (v : view) :
  activeView s = Some v -> reducedMotion e = false ->
  let s2 := close e (close e s) in
  let s4 := complete_exit e (S (nextId s)) (complete_exit e (nextId s) s2) in
  historyStack s2 = EmptyString :: EmptyString :: historyStack s /\
  activeView s2 = Some v /\
  released e s4 /\ scrollY s4 = scrollPosition s.
Proof.
  intros A M. cbv zeta.
  assert (E : close e (close e s) =
    set_pending (OnComplete (S (nextId s)) v :: SafetyTimeout (S (nextId s)) v ::
                 OnComplete (nextId s) v :: SafetyTimeout (nextId s) v :: pending s)
      (S (S (nextId s)))
      (set_pending (SafetyTimeout (S (nextId s)) v :: OnComplete (nextId s) v ::
                    SafetyTimeout (nextId s) v :: pending s)
         (S (S (nextId s)))
         (push_history EmptyString
            (set_pending (OnComplete (nextId s) v :: SafetyTimeout (nextId s) v ::
                          pending s) (S (nextId s))
               (set_pending (SafetyTimeout (nextId s) v :: pending s) (S (nextId s))
                  (push_history EmptyString s)))))).
  { unfold close, closeInternal. rewrite A, M. cbn. rewrite A. reflexivity. }
  split; [rewrite E; reflexivity|]. split; [rewrite E; exact A|].
  destruct (complete_exit_finalizes e (nextId s) v (close e (close e s))
              [OnComplete (S (nextId s)) v; SafetyTimeout (S (nextId s)) v]
              (SafetyTimeout (nextId s) v :: pending s) ltac:(rewrite E; reflexivity))
    as (u1 & E1 & S1 & P1).
  { cbv [forallb is_oncomplete]. rewrite succ_neqb. reflexivity. }
  rewrite E1.
  assert (N : is_oncomplete (nextId s) (OnComplete (S (nextId s)) v) = false)
    by apply succ_neqb.
  destruct (complete_exit_finalizes e (S (nextId s)) v (finalizeClose e v u1) []
              (filter (fun cb => negb (is_timeout (nextId s) cb))
                 (filter (fun cb => negb (is_oncomplete (nextId s) cb))
                    (SafetyTimeout (S (nextId s)) v :: OnComplete (nextId s) v ::
                     SafetyTimeout (nextId s) v :: pending s))))
    as (u2 & E2 & S2 & _).
  { rewrite finalizeClose_pending, P1, E. cbn [pending set_pending filter].
    rewrite N. reflexivity. }
  { reflexivity. }
  rewrite E2. split; [apply finalizeClose_released|].
  rewrite finalizeClose_scrollY, S2.
  unfold finalizeClose; simpl; destruct (boundEscape u1); destruct (hasLenis e);
    simpl; rewrite S1, E; reflexivity.
Qed.

Lemma double_close_pushes_twice_witness :
  let s := open_found two_cards card_a (ViewById "a-view") "a" false (page_at 500) in
  historyStack (close two_cards (close two_cards s)) =
    [EmptyString; EmptyString; "#a"%string].
Proof.
  cbv zeta.
  exact (proj1 (double_close_pushes_twice two_cards
           (open_found two_cards card_a (ViewById "a-view") "a" false (page_at 500))
           (ViewById "a-view") eq_refl eq_refl)).
Defined.

End ViewNavFacts.

(* ================================================================== *)
(** ** Gallery navigation: proofs *)
(* ================================================================== *)

Module GalleryNavFacts.
Import Gallery GalleryNav GalleryFacts.
Local Open Scope Q_scope.

Lemma inject_nat_nonneg (n : nat) : 0 <= inject_Z (Z.of_nat n).
Proof. change 0 with (inject_Z 0). rewrite <- Zle_Qle. lia. Qed.

Lemma inject_nat_succ (n : nat) :
  inject_Z (Z.of_nat (S n)) == inject_Z (Z.of_nat n) + 1.
Proof. rewrite Nat2Z.inj_succ, <- Z.add_1_r, inject_Z_plus. reflexivity. Qed.

(** Pressing the next arrow [n] times, from a position inside the bounds,
    moves the strip [n * scrollStep] to the left, stopping at [minX]; the
    previous arrow moves it right, stopping at [0]. *)
Theorem presses_formula (l : layout) (scrollStep x0 : Q) (n : nat) :
  0 <= scrollStep -> minX (updateBounds l) <= x0 <= 0 ->
  nextPresses l scrollStep n x0 ==
    Qmax (minX (updateBounds l)) (x0 - inject_Z (Z.of_nat n) * scrollStep) /\
  prevPresses l scrollStep n x0 ==
    Qmin 0 (x0 + inject_Z (Z.of_nat n) * scrollStep).
Proof.
  intros Hs. set (m := minX (updateBounds l)).
  assert (Hm : m <= 0) by (destruct (updateBounds_ordered l) as [H1 H2]; unfold m; lra).
  revert x0. induction n as [|n IH]; intros x0 Hx.
  - simpl. change (inject_Z 0) with 0.
    split.
    + destruct (Q.max_spec m (x0 - 0 * scrollStep)) as [[H1 H2]|[H1 H2]]; lra.
    + destruct (Q.min_spec 0 (x0 + 0 * scrollStep)) as [[H1 H2]|[H1 H2]]; lra.
  - assert (Hp : 0 <= inject_Z (Z.of_nat n) * scrollStep)
      by (apply Qmult_le_0_compat; [apply inject_nat_nonneg|exact Hs]).
    assert (Hsucc : inject_Z (Z.of_nat (S n)) * scrollStep ==
                    inject_Z (Z.of_nat n) * scrollStep + scrollStep)
      by (rewrite inject_nat_succ; ring).
    set (p := inject_Z (Z.of_nat n) * scrollStep) in *.
    split.
    + simpl. unfold nextClick, scrollGallery, clamp. simpl tw_x. fold m.
      set (x1 := Qmax m (Qmin (maxX (updateBounds l)) (x0 + -1 * scrollStep))).
      assert (Hx1 : m <= x1 <= 0).
      { unfold x1, m. apply (clamp_within (updateBounds l)). apply updateBounds_ordered. }
      rewrite (proj1 (IH x1 Hx1)). rewrite Hsucc.
      assert (X : x1 == Qmax m (Qmin 0 (x0 + -1 * scrollStep))) by reflexivity.
      destruct (Q.min_spec 0 (x0 + -1 * scrollStep)) as [[H1 H2]|[H1 H2]]; [lra|].
      destruct (Q.max_spec m (Qmin 0 (x0 + -1 * scrollStep))) as [[H3 H4]|[H3 H4]];
      destruct (Q.max_spec m (x1 - p)) as [[H5 H6]|[H5 H6]];
      destruct (Q.max_spec m (x0 - (p + scrollStep))) as [[H9 H10]|[H9 H10]]; lra.
    + simpl. unfold prevClick, scrollGallery, clamp. simpl tw_x.
      set (x1 := Qmax (minX (updateBounds l))
                   (Qmin (maxX (updateBounds l)) (x0 + 1 * scrollStep))).
      assert (Hx1 : m <= x1 <= 0).
      { unfold x1, m. apply (clamp_within (updateBounds l)). apply updateBounds_ordered. }
      rewrite (proj2 (IH x1 Hx1)). rewrite Hsucc.
      assert (X : x1 == Qmax m (Qmin 0 (x0 + 1 * scrollStep))) by reflexivity.
      destruct (Q.min_spec 0 (x0 + 1 * scrollStep)) as [[H1 H2]|[H1 H2]];
      destruct (Q.max_spec m (Qmin 0 (x0 + 1 * scrollStep))) as [[H3 H4]|[H3 H4]];
      destruct (Q.min_spec 0 (x1 + p)) as [[H5 H6]|[H5 H6]];
      destruct (Q.min_spec 0 (x0 + (p + scrollStep))) as [[H9 H10]|[H9 H10]]; lra.
Qed.

Lemma presses_formula_witness :
  nextPresses narrow 100 3 0 == -240 /\ prevPresses narrow 100 1 (-240) == -140.
Proof.
  destruct (presses_formula narrow 100 0 3 ltac:(lra)
              ltac:(vm_compute; split; discriminate)) as [H1 _].
  destruct (presses_formula narrow 100 (-240) 1 ltac:(lra)
              ltac:(vm_compute; split; discriminate)) as [_ H2].
  split; [rewrite H1|rewrite H2]; reflexivity.
Defined.

(** With a positive [scrollStep], the next arrow is marked hidden after [n]
    presses exactly when [n * scrollStep] covers the distance from the
    start position to [minX]. *)
Theorem next_arrow_hidden_iff (l : layout) (scrollStep x0 : Q) (n : nat) :
  0 < scrollStep -> minX (updateBounds l) <= x0 <= 0 ->
  exists prevHidden,
    updateArrowStates true l (nextPresses l scrollStep n x0) =
      Some (prevHidden,
            Qle_bool (x0 - minX (updateBounds l)) (inject_Z (Z.of_nat n) * scrollStep)).
Proof.
  intros Hs Hx. eexists. unfold updateArrowStates. f_equal. f_equal.
  destruct (presses_formula l scrollStep x0 n ltac:(lra) Hx) as [H _].
  set (m := minX (updateBounds l)) in *.
  set (p := inject_Z (Z.of_nat n) * scrollStep) in *.
  destruct (Qle_bool (x0 - m) p) eqn:E.
  - apply Qle_bool_iff in E. apply Qle_bool_iff. rewrite H.
    destruct (Q.max_spec m (x0 - p)) as [[H1 H2]|[H1 H2]]; lra.
  - apply Qle_bool_false in E. apply Qle_bool_false. rewrite H.
    destruct (Q.max_spec m (x0 - p)) as [[H1 H2]|[H1 H2]]; lra.
Qed.

Lemma next_arrow_hidden_iff_witness :
  exists p, updateArrowStates true narrow (nextPresses narrow 100 3 0) = Some (p, true).
Proof.
  destruct (next_arrow_hidden_iff narrow 100 0 3 ltac:(lra)
              ltac:(vm_compute; split; discriminate)) as (p & H).
  exists p. rewrite H. reflexivity.
Defined.

End GalleryNavFacts.

(* ================================================================== *)
(** ** Gallery readiness: proofs *)
(* ================================================================== *)

Module GalleryInitFacts.
Import GalleryInit.

(** Exactly one double frame is queued or run once creation has been
    scheduled, none before; every [Draggable.create] ran in such a frame. *)
Definition frames_inv (s : istate) : Prop :=
  (framesQueued s + framesRun s = if createScheduled s then 1 else 0)%nat /\
  (creates s <= framesRun s)%nat.

Lemma schedule_inv s : frames_inv s -> frames_inv (scheduleCreateDraggable s).
Proof.
  unfold frames_inv, scheduleCreateDraggable. intros [H1 H2].
  destruct (createScheduled s) eqn:C; cbn; rewrite ?C in *; lia.
Qed.

Lemma onImageReady_inv total s : frames_inv s -> frames_inv (onImageReady total s).
Proof.
  intros H. unfold onImageReady. cbn [loadedCount].
  destruct (total <=? S (loadedCount s))%nat; [apply schedule_inv|]; exact H.
Qed.

Lemma handle_inv total hd hs s ev :
  frames_inv s -> frames_inv (handle total hd hs s ev).
Proof.
  intros H. destruct ev; simpl.
  - apply onImageReady_inv, H.
  - destruct (negb (activeDraggable s) && negb (draggableCreating s));
      [apply schedule_inv|]; exact H.
  - destruct (framesQueued s) as [|k] eqn:Q; [exact H|].
    unfold frames_inv, createDraggable in *. rewrite Q in H. simpl.
    destruct (activeDraggable s || draggableCreating s); simpl;
      [|destruct (hd && hs)]; simpl; lia.
  - exact H.
Qed.

Lemma run_inv total hd hs evs s :
  frames_inv s -> frames_inv (run total hd hs evs s).
Proof.
  unfold run. revert s. induction evs as [|ev evs IH]; intros s H; simpl;
    [exact H|]. apply IH, handle_inv, H.
Qed.

Lemma loading_fold_inv total complete s :
  frames_inv s ->
  frames_inv (fold_left (fun s c => if c : bool then onImageReady total s else s)
                complete s).
Proof.
  revert s. induction complete as [|b bs IH]; intros s H; simpl; [exact H|].
  apply IH. destruct b; [apply onImageReady_inv|]; exact H.
Qed.

Lemma startLoading_inv complete a c : frames_inv (startLoading complete a c).
Proof.
  apply loading_fold_inv. unfold frames_inv; simpl; lia.
Qed.

(** [#initGallery] on a gallery with images: however the images report and
    whenever the fallback timeout and the animation frames run, at most one
    double [requestAnimationFrame] is ever queued, and [Draggable.create] is
    called at most once, even if the view closes in between. *)
Theorem at_most_one_creation (complete : list bool)
    (active creating hasDraggable hasSection : bool) (evs : list ievent) :
  let s := run (List.length complete) hasDraggable hasSection evs
             (startLoading complete active creating) in
  (framesQueued s + framesRun s <= 1)%nat /\ (creates s <= 1)%nat.
Proof.
  cbv zeta.
  destruct (run_inv (List.length complete) hasDraggable hasSection evs _
              (startLoading_inv complete active creating)) as [H1 H2].
  destruct (createScheduled _); lia.
Qed.

Definition ready_inv (total : nat) (s : istate) : Prop :=
  (total <= loadedCount s)%nat -> createScheduled s = true.

Lemma schedule_sets s : createScheduled (scheduleCreateDraggable s) = true /\
  loadedCount (scheduleCreateDraggable s) = loadedCount s.
Proof.
  unfold scheduleCreateDraggable. destruct (createScheduled s) eqn:C; cbn; auto.
Qed.

Lemma onImageReady_ready total s :
  ready_inv total s ->
  ready_inv total (onImageReady total s) /\
  loadedCount (onImageReady total s) = S (loadedCount s).
Proof.
  intros _. unfold onImageReady. cbn [loadedCount].
  destruct (total <=? S (loadedCount s))%nat eqn:E.
  - destruct (schedule_sets {| loadedCount := S (loadedCount s);
                               createScheduled := createScheduled s;
                               framesQueued := framesQueued s;
                               framesRun := framesRun s;
                               activeDraggable := activeDraggable s;
                               draggableCreating := draggableCreating s;
                               creates := creates s |}) as [A B].
    split; [intros _; exact A|exact B].
  - apply Nat.leb_gt in E. split; [|reflexivity].
    unfold ready_inv. cbn. lia.
Qed.

Lemma handle_ready total hd hs s ev :
  ready_inv total s ->
  ready_inv total (handle total hd hs s ev) /\
  loadedCount (handle total hd hs s ev) =
    (loadedCount s + match ev with ImageReady => 1 | _ => 0 end)%nat.
Proof.
  intros H. destruct ev; simpl.
  - rewrite Nat.add_1_r. apply onImageReady_ready, H.
  - rewrite Nat.add_0_r.
    destruct (negb (activeDraggable s) && negb (draggableCreating s)).
    + destruct (schedule_sets s) as [A B]. split; [intros _; exact A|exact B].
    + auto.
  - rewrite Nat.add_0_r. destruct (framesQueued s) as [|k]; [auto|].
    unfold createDraggable, ready_inv in *. cbn.
    destruct (activeDraggable s || draggableCreating s); cbn;
      [|destruct (hd && hs)]; cbn; auto.
  - rewrite Nat.add_0_r. split; [exact H|reflexivity].
Qed.

Lemma run_ready total hd hs evs s :
  ready_inv total s ->
  ready_inv total (run total hd hs evs s) /\
  loadedCount (run total hd hs evs s) =
    (loadedCount s + List.length (filter (fun ev => match ev with
                                              | ImageReady => true
                                              | _ => false end) evs))%nat.
Proof.
  unfold run. revert s. induction evs as [|ev evs IH]; intros s H; simpl.
  - split; [exact H|lia].
  - destruct (handle_ready total hd hs s ev H) as [H1 E1].
    destruct (IH _ H1) as [H2 E2]. split; [exact H2|].
    rewrite E2, E1. destruct ev; simpl; lia.
Qed.

Lemma loading_fold_ready total complete s :
  ready_inv total s ->
  ready_inv total (fold_left (fun s c => if c : bool then onImageReady total s else s)
                     complete s) /\
  loadedCount (fold_left (fun s c => if c : bool then onImageReady total s else s)
                 complete s) =
    (loadedCount s + List.length (filter (fun c : bool => c) complete))%nat.
Proof.
  revert s. induction complete as [|b bs IH]; intros s H; simpl.
  - split; [exact H|lia].
  - destruct b.
    + destruct (onImageReady_ready total s H) as [H1 E1].
      destruct (IH _ H1) as [H2 E2]. split; [exact H2|]. rewrite E2, E1. simpl. lia.
    + exact (IH s H).
Qed.

(** [#initGallery] on a gallery with images: once every image has counted
    as ready, either because it was complete when the gallery was set up
    or because it fired [load] or [error], the creation of the Draggable
    has been scheduled, whatever else happened in between. *)
Theorem reported_images_schedule_creation (complete : list bool)
    (active creating hasDraggable hasSection : bool) (evs : list ievent) :
  complete <> [] ->
  (List.length complete <=
     List.length (filter (fun c : bool => c) complete) +
     List.length (filter (fun ev => match ev with ImageReady => true | _ => false end)
                    evs))%nat ->
  createScheduled (run (List.length complete) hasDraggable hasSection evs
                     (startLoading complete active creating)) = true.
Proof.
  intros Hne Hc.
  assert (H0 : ready_inv (List.length complete) (mkI 0 false 0 0 active creating 0)).
  { unfold ready_inv. cbn. destruct complete; [contradiction|]. simpl. lia. }
  destruct (loading_fold_ready (List.length complete) complete _ H0) as [H1 E1].
  unfold startLoading.
  destruct (run_ready (List.length complete) hasDraggable hasSection evs _ H1)
    as [H2 E2].
  apply H2. rewrite E2, E1. cbn. lia.
Qed.

Lemma reported_images_schedule_creation_witness :
  createScheduled (run 2 true true [ImageReady]
                     (startLoading [true; false] false false)) = true.
Proof.
  exact (reported_images_schedule_creation [true; false] false false true true
           [ImageReady] ltac:(discriminate) ltac:(simpl; lia)).
Defined.

End GalleryInitFacts.

(* ================================================================== *)
(** ** Options: proofs *)
(* ================================================================== *)

Module OptionsFacts.
Import Options.
Local Open Scope string_scope.

Lemma lookup_set_prop ps k v k' :
  lookup (set_prop ps k v) k' = if String.eqb k k' then Some v else lookup ps k'.
Proof.
  induction ps as [|[k0 v0] r IH]; simpl.
  - destruct (String.eqb k k'); reflexivity.
  - destruct (String.eqb_spec k0 k) as [->|N]; simpl.
    + destruct (String.eqb k k'); reflexivity.
    + rewrite IH. destruct (String.eqb_spec k0 k') as [->|_];
        destruct (String.eqb_spec k k') as [->|_]; congruence.
Qed.

Lemma lookup_assign out k v m k' :
  lookup (assign out k v m) k' =
  if String.eqb k k' then
    match v with JUndef => lookup out k' | JObj _ => Some m | _ => Some v end
  else lookup out k'.
Proof.
  unfold assign. destruct (String.eqb k k') eqn:E.
  - apply String.eqb_eq in E as <-.
    destruct v; rewrite ?lookup_set_prop, ?String.eqb_refl; reflexivity.
  - destruct v; rewrite ?lookup_set_prop, ?E; reflexivity.
Qed.

Lemma lookup_none_not_in ps k : ~ In k (map fst ps) -> lookup ps k = None.
Proof.
  induction ps as [|[k0 v0] r IH]; simpl; intros H; [reflexivity|].
  destruct (String.eqb_spec k0 k) as [->|_]; [tauto|]. apply IH. tauto.
Qed.

(** The loop of [mergeDeep] over an object with distinct keys, property by
    property. *)
Lemma merge_props_lookup merge target out ps k :
  NoDup (map fst ps) ->
  lookup (merge_props merge target out ps) k =
  match lookup ps k with
  | None | Some JUndef => lookup out k
  | Some (JObj q) => Some (merge (js_or (js_get target k) (JObj [])) (JObj q))
  | Some v => Some v
  end.
Proof.
  revert out. induction ps as [|[k0 v0] r IH]; intros out Hnd; simpl; [reflexivity|].
  inversion Hnd as [|? ? Hnin Hnd']; subst.
  rewrite IH by exact Hnd'. rewrite lookup_assign.
  destruct (String.eqb_spec k0 k) as [->|_].
  - rewrite (lookup_none_not_in r k Hnin). destruct v0; reflexivity.
  - reflexivity.
Qed.

Lemma mergeDeep_obj_lookup target ps k :
  NoDup (map fst ps) ->
  js_get (mergeDeep target (JObj ps)) k =
  match lookup ps k with
  | None | Some JUndef => js_get target k
  | Some (JObj q) => mergeDeep (js_or (js_get target k) (JObj [])) (JObj q)
  | Some v => v
  end.
Proof.
  intros Hnd. unfold js_get at 1. simpl own_props.
  rewrite (merge_props_lookup mergeDeep target (own_props target) ps k Hnd).
  destruct (lookup ps k) as [[]|]; reflexivity.
Qed.

(** [mergeDeep(target, source)] for a source object, key by key: a key the
    source lacks or sets to [undefined] keeps the target's value, a key whose
    source value is a plain object is merged recursively into the target's
    value (or into [{}] when that value is falsy), and any other source value
    (arrays, functions, [null], [false], numbers, strings) replaces the
    target's. *)
Theorem mergeDeep_key_law (target : jsval) (ps : list (string * jsval)) (k : string) :
  NoDup (map fst ps) ->
  js_get (mergeDeep target (JObj ps)) k =
  match lookup ps k with
  | None | Some JUndef => js_get target k
  | Some (JObj q) => mergeDeep (js_or (js_get target k) (JObj [])) (JObj q)
  | Some v => v
  end.
Proof. apply mergeDeep_obj_lookup. Qed.

Lemma mergeDeep_key_law_witness :
  js_get (js_get (mergeDeep DEFAULTS
                    (JObj [("lenis", JObj [("duration", JNum (Finite 2))])]))
            "lenis") "easing" = JFun "easing".
Proof.
  rewrite (mergeDeep_key_law DEFAULTS
             [("lenis", JObj [("duration", JNum (Finite 2))])] "lenis"
             ltac:(repeat constructor; simpl; tauto)).
  reflexivity.
Defined.

Lemma in_keys_set_prop ps k v x :
  In x (map fst (set_prop ps k v)) -> In x (map fst ps) \/ x = k.
Proof.
  induction ps as [|[k0 v0] r IH]; simpl.
  - intros [->|[]]. right; reflexivity.
  - destruct (String.eqb_spec k0 k); simpl; intros [H|H]; auto.
    destruct (IH H); auto.
Qed.

Lemma set_prop_nodup ps k v :
  NoDup (map fst ps) -> NoDup (map fst (set_prop ps k v)).
Proof.
  induction ps as [|[k0 v0] r IH]; simpl; intros H.
  - repeat constructor. simpl; tauto.
  - inversion H as [|? ? Hnin Hnd]; subst.
    destruct (String.eqb_spec k0 k) as [->|N]; simpl; constructor; auto.
    intros Hin. destruct (in_keys_set_prop r k v k0 Hin) as [Hr|Hr]; auto.
Qed.

Section Parse.
Variable isNaN : string -> bool.
Variable parseFloat : string -> number.

Lemma parse_entries_nodup out ds :
  NoDup (map fst out) -> NoDup (map fst (parse_entries isNaN parseFloat out ds)).
Proof.
  revert out. induction ds as [|[key value] rest IH]; intros out H; simpl; [exact H|].
  apply IH. destruct (option_key key); [apply set_prop_nodup|]; exact H.
Qed.

Lemma find_app {A} (f : A -> bool) l1 l2 :
  find f (l1 ++ l2) = match find f l1 with Some x => Some x | None => find f l2 end.
Proof.
  induction l1 as [|a l1 IH]; simpl; [reflexivity|]. destruct (f a); auto.
Qed.

Lemma parse_entries_lookup out ds k :
  lookup (parse_entries isNaN parseFloat out ds) k =
  match find (fun kv => match option_key (fst kv) with
                        | Some nk => String.eqb nk k
                        | None => false
                        end) (rev ds) with
  | Some (_, value) => Some (parse_value isNaN parseFloat value)
  | None => lookup out k
  end.
Proof.
  revert out. induction ds as [|[key value] rest IH]; intros out; simpl; [reflexivity|].
  rewrite IH, find_app. simpl.
  destruct (find _ (rev rest)) as [[? ?]|]; [reflexivity|].
  destruct (option_key key) as [nk|]; [|reflexivity].
  rewrite lookup_set_prop. destruct (String.eqb nk k); reflexivity.
Qed.

Lemma parse_value_scalar value :
  match parse_value isNaN parseFloat value with
  | JUndef | JObj _ => False
  | _ => True
  end.
Proof.
  unfold parse_value.
  destruct (String.eqb value "true"); [exact I|].
  destruct (String.eqb value "false"); [exact I|].
  destruct (negb (isNaN value) && negb (String.eqb value EmptyString)); exact I.
Qed.

End Parse.

(** The option a [data-cm-*] attribute sets is the converted value of the
    last dataset entry whose key normalises to it: ["true"] and ["false"]
    become booleans, other non-empty numeric strings numbers, anything else
    stays a string; entries whose key does not start with [cm] or is [cm]
    alone set nothing. *)
Theorem parse_last_entry_wins (isNaN : string -> bool)
    (parseFloat : string -> number) (dataset : list (string * string)) (k : string) :
  js_get (parseDataOptions isNaN parseFloat dataset) k =
  match find (fun kv => match option_key (fst kv) with
                        | Some nk => String.eqb nk k
                        | None => false
                        end) (rev dataset) with
  | Some (_, value) => parse_value isNaN parseFloat value
  | None => JUndef
  end.
Proof.
  unfold js_get, parseDataOptions. simpl own_props.
  rewrite parse_entries_lookup. destruct (find _ _) as [[? ?]|]; reflexivity.
Qed.

Lemma constructor_lookup (isNaN : string -> bool)
    (parseFloat : string -> number) (ups : list (string * jsval))
    (dataset : list (string * string)) (k : string) :
  NoDup (map fst ups) ->
  js_get (constructor_options isNaN parseFloat (JObj ups) dataset) k =
  match lookup (parse_entries isNaN parseFloat [] dataset) k with
  | Some dv => dv
  | None =>
      match lookup ups k with
      | None | Some JUndef => js_get DEFAULTS k
      | Some (JObj q) => mergeDeep (js_or (js_get DEFAULTS k) (JObj [])) (JObj q)
      | Some uv => uv
      end
  end.
Proof.
  intros Hnd. unfold constructor_options, parseDataOptions.
  rewrite mergeDeep_obj_lookup
    by (apply parse_entries_nodup; constructor).
  destruct (lookup (parse_entries isNaN parseFloat [] dataset) k) as [dv|] eqn:E.
  - rewrite parse_entries_lookup in E.
    destruct (find _ (rev dataset)) as [[key value]|]; [|discriminate].
    injection E as <-. pose proof (parse_value_scalar isNaN parseFloat value) as Sc.
    destruct (parse_value isNaN parseFloat value); try contradiction; reflexivity.
  - apply mergeDeep_obj_lookup, Hnd.
Qed.


(** The constructor's options, key by key: an option set by a [data-cm-*]
    attribute takes the attribute's value whatever the defaults and the
    options argument hold, even where they hold an object ([lenis]); an
    option the attributes leave alone follows [mergeDeep(DEFAULTS,
    options)]. *)
Theorem constructor_precedence (isNaN : string -> bool)
    (parseFloat : string -> number) (ups : list (string * jsval))
    (dataset : list (string * string)) (k : string) :
  NoDup (map fst ups) ->
  js_get (constructor_options isNaN parseFloat (JObj ups) dataset) k =
  match lookup (parse_entries isNaN parseFloat [] dataset) k with
  | Some dv => dv
  | None =>
      match lookup ups k with
      | None | Some JUndef => js_get DEFAULTS k
      | Some (JObj q) => mergeDeep (js_or (js_get DEFAULTS k) (JObj [])) (JObj q)
      | Some uv => uv
      end
  end.
Proof. apply constructor_lookup. Qed.

Lemma constructor_precedence_witness :
  js_get (constructor_options (fun _ => true) (fun _ => NaN)
            (JObj [("lenis", JObj [("duration", JNum (Finite 2))])])
            [("cmLenis", "false")]) "lenis" = JBool false.
Proof.
  rewrite (constructor_precedence (fun _ => true) (fun _ => NaN)
             [("lenis", JObj [("duration", JNum (Finite 2))])]
             [("cmLenis", "false")] "lenis"
             ltac:(repeat constructor; simpl; tauto)).
  reflexivity.
Defined.

Lemma merge_props_nodup merge target out ps :
  NoDup (map fst out) -> NoDup (map fst (merge_props merge target out ps)).
Proof.
  revert out. induction ps as [|[k v] r IH]; intros out H; simpl; [exact H|].
  apply IH. unfold assign. destruct v; try apply set_prop_nodup; exact H.
Qed.

(** [initAll] merges a container's data options into the options before
    calling the constructor, which merges them again: every option comes
    out as with the constructor alone. *)
Theorem initAll_options_agree (isNaN : string -> bool)
    (parseFloat : string -> number) (ops : list (string * jsval))
    (dataset : list (string * string)) (k : string) :
  NoDup (map fst ops) ->
  js_get (initAll_options isNaN parseFloat (JObj ops) dataset) k =
  js_get (constructor_options isNaN parseFloat (JObj ops) dataset) k.
Proof.
  intros Hnd. unfold initAll_options, parseDataOptions.
  set (data := parse_entries isNaN parseFloat [] dataset).
  assert (Hd : NoDup (map fst data))
    by (apply parse_entries_nodup; constructor).
  change (mergeDeep (JObj ops) (JObj data))
    with (JObj (merge_props mergeDeep (JObj ops) ops data)).
  rewrite (constructor_lookup isNaN parseFloat (merge_props mergeDeep (JObj ops) ops data))
    by (apply merge_props_nodup, Hnd).
  rewrite (constructor_lookup isNaN parseFloat ops dataset k Hnd).
  fold data. destruct (lookup data k) eqn:E; [reflexivity|].
  rewrite (merge_props_lookup mergeDeep (JObj ops) ops data k Hd), E. reflexivity.
Qed.

Lemma initAll_options_agree_witness :
  js_get (initAll_options (fun _ => true) (fun _ => NaN)
            (JObj [("keyboard", JBool true)]) [("cmKeyboard", "false")]) "keyboard" =
  js_get (constructor_options (fun _ => true) (fun _ => NaN)
            (JObj [("keyboard", JBool true)]) [("cmKeyboard", "false")]) "keyboard".
Proof.
  exact (initAll_options_agree (fun _ => true) (fun _ => NaN) [("keyboard", JBool true)]
           [("cmKeyboard", "false")] "keyboard" ltac:(repeat constructor; simpl; tauto)).
Defined.

End OptionsFacts.

(* ================================================================== *)
(** ** Instance registry: proofs *)
(* ================================================================== *)

Module RegistryFacts.
Import Registry.

Lemma registered_app reg extra c :
  registered reg c = true -> registered (reg ++ extra) c = true.
Proof. unfold registered. rewrite existsb_app. intros ->. reflexivity. Qed.

Lemma step_keeps ctor acc x c :
  registered (snd acc) c = true ->
  registered (snd (initAll_step ctor acc x)) c = true.
Proof.
  destruct acc as [i r]. simpl. intros H.
  destruct (registered r x); [exact H|].
  destruct (ctor x); simpl; auto using registered_app.
Qed.

Lemma step_settles ctor acc x :
  registered (snd (initAll_step ctor acc x)) x = true \/ ctor x = CtorThrowsBefore.
Proof.
  destruct acc as [i r]. simpl.
  destruct (registered r x) eqn:R; [left; exact R|].
  destruct (ctor x) eqn:C; simpl; [left| right; reflexivity |left];
    unfold registered; rewrite existsb_app; simpl; rewrite Nat.eqb_refl, orb_true_r;
    reflexivity.
Qed.

Lemma fold_keeps ctor l acc c :
  registered (snd acc) c = true ->
  registered (snd (fold_left (initAll_step ctor) l acc)) c = true.
Proof.
  revert acc. induction l as [|x l IH]; intros acc H; simpl; [exact H|].
  apply IH, step_keeps, H.
Qed.

Lemma fold_settles ctor l acc c :
  In c l ->
  registered (snd (fold_left (initAll_step ctor) l acc)) c = true \/
  ctor c = CtorThrowsBefore.
Proof.
  revert acc. induction l as [|x l IH]; intros acc Hin; [destruct Hin|].
  simpl. destruct Hin as [->|Hin]; [|apply IH, Hin].
  destruct (step_settles ctor acc c) as [H|H]; [left; apply fold_keeps, H|right; exact H].
Qed.

Lemma fold_instances ctor l insts reg c :
  In c (fst (fold_left (initAll_step ctor) l (insts, reg))) ->
  In c insts \/ (In c l /\ registered reg c = false).
Proof.
  revert insts reg. induction l as [|x l IH]; intros insts reg H; simpl in H;
    [left; exact H|].
  destruct (registered reg x) eqn:R;
    [|destruct (ctor x)];
    (destruct (IH _ _ H) as [Hi|(Hl & Hr)];
     [|right; split; [right; exact Hl|]]).
  - left. exact Hi.
  - exact Hr.
  - apply in_app_or in Hi as [Hi|[<-|[]]]; [left; exact Hi|].
    right. split; [left; reflexivity|exact R].
  - destruct (registered reg c) eqn:Rc; [|reflexivity].
    rewrite (registered_app reg [x] c Rc) in Hr. discriminate.
  - left. exact Hi.
  - exact Hr.
  - left. exact Hi.
  - destruct (registered reg c) eqn:Rc; [|reflexivity].
    rewrite (registered_app reg [x] c Rc) in Hr. discriminate.
Qed.

(** A second [initAll] on the same containers, as the [MutationObserver] of
    [enableAutoInit] runs it, and whatever the constructor does this time,
    creates instances only for containers that were not registered before
    the first call and whose first constructor threw before registering
    them.  A container registered by the first call, even by a constructor
    that then threw, is never tried again. *)
Theorem initAll_retries_only_unregistered (ctor1 ctor2 : nat -> ctor_outcome)
    (containers reg : list nat) (c : nat) :
  let reg1 := snd (initAll ctor1 containers reg) in
  In c (fst (initAll ctor2 containers reg1)) ->
  In c containers /\ registered reg c = false /\ ctor1 c = CtorThrowsBefore.
Proof.
  cbv zeta. unfold initAll. intros H.
  destruct (fold_instances ctor2 containers [] _ c H) as [[]|(Hin & Hr)].
  split; [exact Hin|]. split.
  - destruct (registered reg c) eqn:Rc; [|reflexivity].
    rewrite (fold_keeps ctor1 containers ([], reg) c Rc) in Hr. discriminate.
  - destruct (fold_settles ctor1 containers ([], reg) c Hin) as [R|T];
      [congruence|exact T].
Qed.

Lemma initAll_retries_only_unregistered_witness :
  let ctor1 c := if Nat.eqb c 2 then CtorThrowsBefore
                 else if Nat.eqb c 3 then CtorThrowsAfter else CtorOk in
  let reg1 := snd (initAll ctor1 [1; 2; 3]%nat []) in
  fst (initAll (fun _ => CtorOk) [1; 2; 3]%nat reg1) = [2%nat] /\
  (In 2 [1; 2; 3] /\ registered [] 2 = false /\ ctor1 2 = CtorThrowsBefore)%nat.
Proof.
  cbv zeta. split; [reflexivity|].
  apply (initAll_retries_only_unregistered
           (fun c => if Nat.eqb c 2 then CtorThrowsBefore
                     else if Nat.eqb c 3 then CtorThrowsAfter else CtorOk)
           (fun _ => CtorOk) [1; 2; 3]%nat [] 2%nat).
  vm_compute. left. reflexivity.
Defined.

End RegistryFacts.

